(** * Mechatronics: PD regulator loop and parameter estimation

    A shallow embedding of [src/solution.py]: the class [Model] with its
    methods [setup], [pd_regulator], [simulate] and [get_params].

    Numbers.  Python floats are modelled as exact rationals [Q]; rounding
    and overflow are outside the model, and so are the IEEE values inf
    and nan: where the source would produce one by a division by a zero
    time step the model reports the outcome [NonFinite], after which
    what numpy returns or raises is not modelled.  Equality of computed
    numbers is [Qeq], written [==]. *)

From Stdlib Require Import String ZArith QArith Qabs Lqa Bool Arith Lia List.
Import ListNotations.
Local Open Scope Q_scope.

(** ** Exceptions and results *)

Inductive exn : Type :=
  | KeyboardInterrupt
  | KeyError
  | IndexError
  | ValueError
  | DeviceError.

Definition exn_eqb (a b : exn) : bool :=
  match a, b with
  | KeyboardInterrupt, KeyboardInterrupt
  | KeyError, KeyError
  | IndexError, IndexError
  | ValueError, ValueError
  | DeviceError, DeviceError => true
  | _, _ => false
  end.

(** ** Recorded rows

    [self.state.append([q, dq, self.device.state['current'], u])]: one
    row has four columns. *)

Record StateRow : Type := mkRow {
  row_q  : Q;   (* column 0: angle *)
  row_dq : Q;   (* column 1: velocity *)
  row_I  : Q;   (* column 2: measured current *)
  row_u  : Q    (* column 3: commanded current *)
}.

(** ** The numpy operations used by [get_params] *)

Module Np.

(** [np.diff(a)]: [a[1:] - a[:-1]]. *)
Fixpoint diff (a : list Q) : list Q :=
  match a with
  | x :: ((y :: _) as tl) => (y - x) :: diff tl
  | _ => []
  end.

(** Result of an element-wise division of two one-dimensional arrays. *)
Inductive quotient : Type :=
  | Quot (v : list Q)      (* every divisor is non-zero *)
  | QuotNonFinite          (* some divisor is zero: inf or nan appears *)
  | QuotShape.             (* the shapes do not broadcast: ValueError *)

Definition nonzero (x : Q) : bool := negb (Qeq_bool x 0).

Fixpoint zip_div (a b : list Q) : list Q :=
  match a, b with
  | x :: a', y :: b' => (x / y) :: zip_div a' b'
  | _, _ => []
  end.

(** [a / b] with numpy's broadcasting of one-dimensional arrays: equal
    lengths divide element-wise, a length-one operand is stretched, any
    other pair of lengths raises. *)
Definition divide (a b : list Q) : quotient :=
  if (length a =? length b)%nat then
    if forallb nonzero b then Quot (zip_div a b) else QuotNonFinite
  else match a, b with
       | [x], _ =>
           if forallb nonzero b then Quot (map (fun y => x / y) b)
           else QuotNonFinite
       | _, [y] =>
           if nonzero y then Quot (map (fun x => x / y) a)
           else match a with [] => Quot [] | _ => QuotNonFinite end
       | _, _ => QuotShape
       end.

(** Inner product of two columns (truncating to the shorter one). *)
Fixpoint dot (x y : list Q) : Q :=
  match x, y with
  | xi :: x', yi :: y' => xi * yi + dot x' y'
  | _, _ => 0
  end.

(** [alpha * x + beta * y], element-wise. *)
Fixpoint lin (alpha : Q) (x : list Q) (beta : Q) (y : list Q) : list Q :=
  match x, y with
  | xi :: x', yi :: y' => (alpha * xi + beta * yi) :: lin alpha x' beta y'
  | _, _ => []
  end.

(** A two-row matrix S = [[x, y]] as built by [np.asarray([dq, ddq])],
    the entries [a = x.x], [b = x.y], [c = y.y] of its Gram matrix
    S @ S.T, and the 2x2 coefficient matrix [M] such that
    [pinv(S) = (M @ S).T].

    [np.linalg.pinv(S)] takes the singular values s1 >= s2 of S and
    inverts those above [rcond * s1], with [rcond = 1e-15]; the others
    count as zero.  The squares of s1, s2 are the eigenvalues l1 >= l2
    of the Gram matrix, with l1 + l2 = a + c and l1 * l2 = det, so
      s2 > rcond * s1  iff  l2 > rcond^2 * l1
                       iff  det * (1 + rcond^2)^2 > rcond^2 * (a + c)^2,
    a test on rationals.  In exact arithmetic:
      no singular value kept (a + c = 0):   the zero matrix;
      both kept:                            S.T @ inv(S @ S.T);
      s2 = 0 (det = 0):                     S.T / (a + c);
      s2 dropped, rows orthogonal (b = 0):  the longer row over its
                                            squared length, the other
                                            column zero;
      s2 dropped otherwise:                 the rank-one truncation has
                                            entries that are quadratic
                                            irrationals in general and
                                            is not computed ([None]). *)
Definition gram_det (a b c : Q) : Q := a * c - b * b.

(** The square of [rcond = 1e-15]. *)
Definition rcond2 : Q := 1 # 1000000000000000000000000000000.

(** Both singular values are above the cut-off. *)
Definition both_kept (a b c : Q) : bool :=
  negb (Qle_bool (gram_det a b c * ((1 + rcond2) * (1 + rcond2)))
                 (rcond2 * ((a + c) * (a + c)))).

Definition pinv_coeffs (a b c : Q) : option ((Q * Q) * (Q * Q)) :=
  let det := gram_det a b c in
  if Qeq_bool (a + c) 0 then Some ((0, 0), (0, 0))
  else if both_kept a b c then
    Some ((c / det, - b / det), (- b / det, a / det))
  else if Qeq_bool det 0 then
    Some ((1 / (a + c), 0), (0, 1 / (a + c)))
  else if Qeq_bool b 0 then
    if Qle_bool c a then Some ((1 / a, 0), (0, 0))
    else Some ((0, 0), (0, 1 / c))
  else None.

(** The pseudo-inverse of the 2 x m matrix with rows [x] and [y], as an
    m x 2 matrix given by its two columns. *)
Definition pinv (x y : list Q) : option (list Q * list Q) :=
  match pinv_coeffs (dot x x) (dot x y) (dot y y) with
  | Some ((m00, m01), (m10, m11)) =>
      Some (lin m00 x m01 y, lin m10 x m11 y)
  | None => None
  end.

(** [v.T @ P] for a column [v] and an m x 2 matrix [P]: a 1 x 2 row. *)
Definition row_matmul (v : list Q) (P : list Q * list Q) : Q * Q :=
  (dot v (fst P), dot v (snd P)).

End Np.

(** ** [Model.get_params] *)

Inductive estimate : Type :=
  | Params (first second : Q)   (* the returned tuple *)
  | Raises (e : exn)
  | NonFinite                   (* inf or nan entered the matrix: what
                                   numpy then returns or raises is not
                                   modelled *)
  | Truncated.                  (* a tuple is returned, that of the
                                   rank-one truncation, whose entries
                                   are not computed *)

(** Lines 60-68.  [time] is [self.time], [state] is [self.state].
    - an empty [self.state] becomes a one-dimensional array and
      [state[:, 0]] raises IndexError;
    - [np.diff(dq) / np.diff(t)] broadcasts or raises ValueError;
    - [np.asarray([dq, ddq])] needs two rows of one length;
    - the tuple is [(params[0, 0], params[0, 1])]. *)
Definition get_params (time : list Q) (state : list StateRow) : estimate :=
  match state with
  | [] => Raises IndexError
  | _ :: _ =>
      let dq := map row_dq state in
      let I := map row_I state in
      match Np.divide (Np.diff dq) (Np.diff time) with
      | Np.QuotShape => Raises ValueError
      | Np.QuotNonFinite => NonFinite
      | Np.Quot ddq =>
          let dq1 := tl dq in
          let I1 := tl I in
          if (length dq1 =? length ddq)%nat then
            match Np.pinv dq1 ddq with
            | Some P =>
                let params := Np.row_matmul I1 P in
                Params (fst params) (snd params)
            | None => Truncated
            end
          else Raises ValueError
      end
  end.

(** The forward finite differences the specification describes, written
    from its words: [ddq_i = (dq_{i+1} - dq_i) / (t_{i+1} - t_i)]. *)
Definition forward_difference (t dq : list Q) (i : nat) : Q :=
  (nth (S i) dq 0 - nth i dq 0) / (nth (S i) t 0 - nth i t 0).

(** Sum of squared residuals of the model [I ~ p0 * x + p1 * y]. *)
Definition sse (x y I : list Q) (p0 p1 : Q) : Q :=
  let r := Np.lin 1 I (-1) (Np.lin p0 x p1 y) in Np.dot r r.

(** [get_params] returned a tuple. *)
Definition returns_pair (r : estimate) : Prop :=
  match r with
  | Params _ _ | Truncated => True
  | Raises _ | NonFinite => False
  end.

(** The pseudo-inverse drops no non-zero singular value: there is none,
    or both are above the cut-off, or the smaller one is zero. *)
Definition untruncated (a b c : Q) : Prop :=
  a + c == 0 \/ Np.both_kept a b c = true \/ Np.gram_det a b c == 0.

(** ** The motor driver

    [GyemsDRC] lives in [libs.motors.gyems], outside this repository's
    sources; the controller only uses the operations below, so the driver
    is a parameter: any type [D] of driver states with these operations.
    An operation either returns the next driver state or raises. *)

Inductive reply (A : Type) : Type :=
  | Done (a : A)
  | Fails (e : exn).
Arguments Done {A} a.
Arguments Fails {A} e.

Class GyemsDRC (D : Type) : Type := {
  dev_state : D -> string -> option Q;        (* device.state[key] *)
  set_degrees : D -> reply D;                 (* device.set_degrees() *)
  set_current_limit : Q -> D -> reply D;      (* device.current_limit = v *)
  enable : D -> reply D;                      (* device.enable() *)
  disable : D -> reply D;                     (* device.disable() *)
  set_current : Q -> D -> reply D             (* device.set_current(u) *)
}.

(** The driver calls a run makes, in order (the view of a mock driver
    that counts its calls). *)
Inductive call : Type :=
  | CSetDegrees
  | CSetCurrentLimit (v : Q)
  | CEnable
  | CDisable
  | CSetCurrent (u : Q).

Definition is_disable (c : call) : bool :=
  match c with CDisable => true | _ => false end.

Definition is_zero_command (c : call) : bool :=
  match c with CSetCurrent u => Qeq_bool u 0 | _ => false end.

Definition is_command (c : call) : bool :=
  match c with CSetCurrent _ => true | _ => false end.

Definition count (f : call -> bool) (l : list call) : nat :=
  List.length (filter f l).

(** ** The environment: clock and keyboard

    [perf_counter k] is the value of the k-th call of [perf_counter()]
    (call 0 is the one that sets [t0]).  [sigint k = Some p] delivers a
    KeyboardInterrupt in the loop iteration that made clock call [k], at
    the program point [p] of that iteration. *)

Inductive point : Type :=
  | BeforeCommand      (* after the clock read, before set_current(u) *)
  | AfterCommand       (* after set_current(u), before state.append *)
  | AfterStateAppend   (* after state.append, before error.append *)
  | AfterErrorAppend   (* after error.append, before time.append *)
  | AfterTimeAppend.   (* after time.append, in the print *)

Definition point_eqb (a b : point) : bool :=
  match a, b with
  | BeforeCommand, BeforeCommand
  | AfterCommand, AfterCommand
  | AfterStateAppend, AfterStateAppend
  | AfterErrorAppend, AfterErrorAppend
  | AfterTimeAppend, AfterTimeAppend => true
  | _, _ => false
  end.

Record Env : Type := mkEnv {
  perf_counter : nat -> Q;
  sigint : nat -> option point
}.

(** ** [DeviceParams] *)

Module DeviceParams.
Record t : Type := mk {
  kp : Q;
  kd : Q;
  q_def : Q;
  dq_def : Q;
  current_limit : Q;
  time_stop : Q
}.
End DeviceParams.

(** ** The [Model] object and the state of a run *)

Record Model (D : Type) : Type := mkModel {
  device : D;
  kp : Q;
  kd : Q;
  initial_velocity : Q;
  q_def : Q;
  time_stop : Q;
  state : list StateRow;
  error : list Q;
  time : list Q
}.
Arguments mkModel {D}.
Arguments device {D}.
Arguments kp {D}.
Arguments kd {D}.
Arguments initial_velocity {D}.
Arguments q_def {D}.
Arguments time_stop {D}.
Arguments state {D}.
Arguments error {D}.
Arguments time {D}.

(** The mutable world of a run: the object, the calls made on the driver
    so far, and how many times the clock has been read. *)
Record World (D : Type) : Type := mkWorld {
  self : Model D;
  calls : list call;
  reads : nat
}.
Arguments mkWorld {D}.
Arguments self {D}.
Arguments calls {D}.
Arguments reads {D}.

Definition with_device {D} (d : D) (m : Model D) : Model D :=
  mkModel d (kp m) (kd m) (initial_velocity m) (q_def m) (time_stop m)
          (state m) (error m) (time m).
Definition with_state {D} (l : list StateRow) (m : Model D) : Model D :=
  mkModel (device m) (kp m) (kd m) (initial_velocity m) (q_def m)
          (time_stop m) l (error m) (time m).
Definition with_error {D} (l : list Q) (m : Model D) : Model D :=
  mkModel (device m) (kp m) (kd m) (initial_velocity m) (q_def m)
          (time_stop m) (state m) l (time m).
Definition with_time {D} (l : list Q) (m : Model D) : Model D :=
  mkModel (device m) (kp m) (kd m) (initial_velocity m) (q_def m)
          (time_stop m) (state m) (error m) l.

(** ** A monad for mutable state and exceptions

    A computation transforms the world and returns a value, raises, or
    runs out of the fuel that bounds the [while] loop of the model.  The
    world survives a raise, as Python's mutations do. *)

Inductive result (A : Type) : Type :=
  | Ok (a : A)
  | Raise (e : exn)
  | OutOfFuel.
Arguments Ok {A} a.
Arguments Raise {A} e.
Arguments OutOfFuel {A}.

Definition M (D A : Type) : Type := World D -> result A * World D.

Definition ret {D A} (a : A) : M D A := fun w => (Ok a, w).

Definition bind {D A B} (c : M D A) (k : A -> M D B) : M D B :=
  fun w =>
    match c w with
    | (Ok a, w') => k a w'
    | (Raise e, w') => (Raise e, w')
    | (OutOfFuel, w') => (OutOfFuel, w')
    end.

Definition raise {D A} (e : exn) : M D A := fun w => (Raise e, w).

Definition out_of_fuel {D A} : M D A := fun w => (OutOfFuel, w).

Definition gets {D A} (f : Model D -> A) : M D A :=
  fun w => (Ok (f (self w)), w).

Definition modify {D} (f : Model D -> Model D) : M D unit :=
  fun w => (Ok tt, mkWorld (f (self w)) (calls w) (reads w)).

Declare Scope py_scope.
Delimit Scope py_scope with py.
Notation "x <- c ;; k" := (bind c (fun x => k))
  (at level 61, c at next level, right associativity) : py_scope.
Notation "c ;; k" := (bind c (fun _ => k))
  (at level 61, right associativity) : py_scope.

(** [try: c except e: h]. *)
Definition try_except {D A} (c : M D A) (e : exn) (h : M D A) : M D A :=
  fun w =>
    match c w with
    | (Raise e', w') => if exn_eqb e' e then h w' else (Raise e', w')
    | r => r
    end.

(** [try: c finally: f]: [f] runs after [c] returned or raised; what [f]
    raises replaces the outcome of [c]. *)
Definition try_finally {D A} (c : M D A) (f : M D unit) : M D A :=
  fun w =>
    match c w with
    | (OutOfFuel, w') => (OutOfFuel, w')
    | (r, w') =>
        match f w' with
        | (Ok _, w'') => (r, w'')
        | (Raise e, w'') => (Raise e, w'')
        | (OutOfFuel, w'') => (OutOfFuel, w'')
        end
    end.

Definition Qlt_bool (x y : Q) : bool := negb (Qle_bool y x).

(** ** The controller: [Model.setup], [pd_regulator], [simulate] *)

Section Controller.

Context {D : Type} `{GyemsDRC D}.
Variable env : Env.

Local Open Scope py_scope.

(** A call of a driver method: the call is made (and logged), then the
    driver answers.  A call that raises leaves the driver state as it
    was. *)
Definition device_call (c : call) (op : D -> reply D) : M D unit :=
  fun w =>
    let log := calls w ++ [c] in
    match op (device (self w)) with
    | Done d' => (Ok tt, mkWorld (with_device d' (self w)) log (reads w))
    | Fails e => (Raise e, mkWorld (self w) log (reads w))
    end.

(** [self.device.state[key]]; a missing key raises KeyError. *)
Definition read_state (key : string) : M D Q :=
  fun w =>
    match dev_state (device (self w)) key with
    | Some v => (Ok v, w)
    | None => (Raise KeyError, w)
    end.

(** [perf_counter()]. *)
Definition clock : M D Q :=
  fun w =>
    (Ok (perf_counter env (reads w)),
     mkWorld (self w) (calls w) (S (reads w))).

(** A place where a pending KeyboardInterrupt is raised. *)
Definition checkpoint (p : point) : M D unit :=
  fun w =>
    match sigint env (pred (reads w)) with
    | Some p' =>
        if point_eqb p p' then (Raise KeyboardInterrupt, w) else (Ok tt, w)
    | None => (Ok tt, w)
    end.

(** Lines 51-53. *)
Definition setup (current_limit : Q) : M D unit :=
  device_call CSetDegrees set_degrees ;;
  device_call (CSetCurrentLimit current_limit)
              (set_current_limit current_limit) ;;
  device_call CEnable enable.

(** Lines 33-43: [Model(device, device_params)]. *)
Definition Model_init (dev : D) (device_params : DeviceParams.t)
  : result unit * World D :=
  let this :=
    mkModel dev
      (DeviceParams.kp device_params)
      (DeviceParams.kd device_params)
      (DeviceParams.dq_def device_params)
      (DeviceParams.q_def device_params)
      (DeviceParams.time_stop device_params)
      [] [] [] in
  (setup (DeviceParams.current_limit device_params) ;;
   modify (with_state []) ;;
   modify (with_error []) ;;
   modify (with_time [])) (mkWorld this [] 0%nat).

(** Lines 75-80. *)
Definition pd_regulator : M D (Q * Q) :=
  q <- read_state "angle" ;;
  dq <- read_state "speed" ;;
  q_des <- gets q_def ;;
  dq_des <- gets initial_velocity ;;
  k_p <- gets kp ;;
  k_d <- gets kd ;;
  let u := k_p * (q_des - q) + k_d * (dq_des - dq) in
  checkpoint BeforeCommand ;;
  device_call (CSetCurrent u) (set_current u) ;;
  checkpoint AfterCommand ;;
  i <- read_state "current" ;;
  modify (fun m => with_state (state m ++ [mkRow q dq i u]) m) ;;
  ret (q_des - q, u).

(** Lines 118-122: the body of the [while] loop; returns the new [t]. *)
Definition tick (t0 : Q) : M D Q :=
  now <- clock ;;
  let t := now - t0 in
  r <- pd_regulator ;;
  checkpoint AfterStateAppend ;;
  modify (fun m => with_error (error m ++ [fst r]) m) ;;
  checkpoint AfterErrorAppend ;;
  modify (fun m => with_time (time m ++ [t]) m) ;;
  checkpoint AfterTimeAppend ;;
  ret t.

(** Lines 117-122: [while t < self.time_stop: ...]. *)
Fixpoint while_loop (fuel : nat) (t0 t : Q) : M D unit :=
  match fuel with
  | O => out_of_fuel
  | S fuel' =>
      stop <- gets time_stop ;;
      if Qlt_bool t stop then
        t' <- tick t0 ;;
        while_loop fuel' t0 t'
      else ret tt
  end.

(** Lines 125 and 128-129. *)
Definition interrupt_handler : M D unit :=
  device_call (CSetCurrent 0) (set_current 0).

Definition shutdown : M D unit :=
  device_call (CSetCurrent 0) (set_current 0) ;;
  device_call CDisable disable.

(** Lines 114-129: [simulate] without the call of [self.plot()] that
    ends its [finally] block.  [plot] only reads the recorded lists, so
    the driver calls and the recorded lists are those of the method; the
    outcome of the method itself is that of [simulate_plot] below, which
    adds the call. *)
Definition simulate (fuel : nat) : M D unit :=
  t0 <- clock ;;
  try_finally
    (try_except (while_loop fuel t0 0) KeyboardInterrupt interrupt_handler)
    shutdown.

(** Lines 114-126: [simulate] up to its [finally] block, that is the
    loop with the KeyboardInterrupt handler. *)
Definition try_block (fuel : nat) : M D unit :=
  t0 <- clock ;;
  try_except (while_loop fuel t0 0) KeyboardInterrupt interrupt_handler.

(** The [try] body alone, from the start of [simulate]: the world and the
    outcome with which the control loop is left. *)
Definition control_loop (fuel : nat) : M D unit :=
  t0 <- clock ;;
  while_loop fuel t0 0.

End Controller.

(** ** Properties of recorded data *)

(** The three lists have one length and [error[i] = q_def - state[i][0]]. *)
Definition aligned {D} (m : Model D) : Prop :=
  List.length (time m) = List.length (error m) /\
  List.length (error m) = List.length (state m) /\
  forall i, (i < List.length (state m))%nat ->
    nth i (error m) 0 = q_def m - row_q (nth i (state m) (mkRow 0 0 0 0)).

(** Every element but the last is below [bound]. *)
Fixpoint all_but_last_below (bound : Q) (l : list Q) : Prop :=
  match l with
  | [] => True
  | [_] => True
  | x :: tl => x < bound /\ all_but_last_below bound tl
  end.

(** ** A mock driver

    It reports the commanded current as the measured one, moves with the
    command, and trips on a command above 1000 units. *)

Record Mock : Type := mkMock {
  m_angle : Q;
  m_speed : Q;
  m_current : Q;
  m_limit : Q;
  m_enabled : bool
}.

Definition mock_state (d : Mock) (key : string) : option Q :=
  if String.eqb key "angle" then Some (m_angle d)
  else if String.eqb key "speed" then Some (m_speed d)
  else if String.eqb key "current" then Some (m_current d)
  else None.

Definition mock_set_current (u : Q) (d : Mock) : reply Mock :=
  if Qle_bool (Qabs u) 1000 then
    Done (mkMock (m_angle d + u / 10) (u / 10) u (m_limit d) (m_enabled d))
  else Fails DeviceError.

#[export] Instance Mock_GyemsDRC : GyemsDRC Mock := {
  dev_state := mock_state;
  set_degrees := fun d => Done d;
  set_current_limit := fun v d =>
    Done (mkMock (m_angle d) (m_speed d) (m_current d) v (m_enabled d));
  enable := fun d =>
    Done (mkMock (m_angle d) (m_speed d) (m_current d) (m_limit d) true);
  disable := fun d =>
    Done (mkMock (m_angle d) (m_speed d) (m_current d) (m_limit d) false);
  set_current := mock_set_current
}.

Definition mock0 : Mock := mkMock 0 0 0 0 false.

(** The parameters of line 136. *)
Definition dev_param : DeviceParams.t := DeviceParams.mk 3 3 90 0 200 10.

(** Parameters whose first command, 100 * 90, trips the mock driver. *)
Definition hot_param : DeviceParams.t := DeviceParams.mk 100 3 90 0 200 10.

(** Parameters whose second command, -12 * 90, trips the mock driver. *)
Definition trip_param : DeviceParams.t := DeviceParams.mk 10 12 90 0 200 10.

(** Three samples with orthogonal, nearly dependent columns: velocities
    [1, -1] and accelerations [-2^-59, -2^-59] after the alignment, and
    currents generated by [I = 1/2 * dq + 2^59 * ddq]. *)
Definition slow_times : list Q :=
  [0; inject_Z (2 ^ 60); inject_Z (2 ^ 61)].
Definition slow_samples : list StateRow :=
  [mkRow 0 3 0 0; mkRow 0 1 (- (1 # 2)) 0; mkRow 0 (-1) (- (3 # 2)) 0].

(** Parameters with a zero run time. *)
Definition bad_param : DeviceParams.t := DeviceParams.mk 3 3 90 0 200 0.

(** Three samples generated by [I = 2 * ddq + 1/2 * dq] at times 0, 1, 2. *)
Definition three_samples : list StateRow :=
  [mkRow 0 0 0 0; mkRow 0 1 (5 # 2) 0; mkRow 0 3 (11 # 2) 0].

(** A clock that advances by [step] per call. *)
Definition steady_clock (step : Q) (k : nat) : Q := inject_Z (Z.of_nat k) * step.

Definition quiet (step : Q) : Env := mkEnv (steady_clock step) (fun _ => None).

Definition interrupted (step : Q) (k : nat) (p : point) : Env :=
  mkEnv (steady_clock step)
        (fun j => if (j =? k)%nat then Some p else None).

(** ** An ideal driver that never raises *)

Record Rotor : Type := mkRotor {
  r_angle : Q;
  r_speed : Q;
  r_current : Q
}.

Definition rotor_state (d : Rotor) (key : string) : option Q :=
  if String.eqb key "angle" then Some (r_angle d)
  else if String.eqb key "speed" then Some (r_speed d)
  else if String.eqb key "current" then Some (r_current d)
  else None.

#[export] Instance Rotor_GyemsDRC : GyemsDRC Rotor := {
  dev_state := rotor_state;
  set_degrees := fun d => Done d;
  set_current_limit := fun _ d => Done d;
  enable := fun d => Done d;
  disable := fun d => Done (mkRotor (r_angle d) (r_speed d) 0);
  set_current := fun u d =>
    Done (mkRotor (r_angle d + r_speed d) (r_speed d + u / 100) u)
}.

Definition rotor0 : Rotor := mkRotor 0 0 0.

(** ** A driver on a failing bus

    The bus carries [f_budget] more current commands; after that every
    current command raises. *)

Record Flaky : Type := mkFlaky {
  f_budget : nat
}.

#[export] Instance Flaky_GyemsDRC : GyemsDRC Flaky := {
  dev_state := fun _ _ => Some 0;
  set_degrees := fun d => Done d;
  set_current_limit := fun _ d => Done d;
  enable := fun d => Done d;
  disable := fun d => Done d;
  set_current := fun _ d =>
    match f_budget d with
    | O => Fails DeviceError
    | S n => Done (mkFlaky n)
    end
}.

(** ** Assumptions on the driver and the clock used by the theorems *)

(** The zero current command returns normally. *)
Definition zero_command_safe (D : Type) `{GyemsDRC D} : Prop :=
  forall d, exists d', set_current 0 d = Done d'.

(** No call of a tick raises: the three keys are present and every
    command returns. *)
Definition healthy (D : Type) `{GyemsDRC D} : Prop :=
  (forall d, exists v, dev_state d "angle" = Some v) /\
  (forall d, exists v, dev_state d "speed" = Some v) /\
  (forall d, exists v, dev_state d "current" = Some v) /\
  (forall u d, exists d', set_current u d = Done d').

(** No KeyboardInterrupt is ever delivered. *)
Definition uninterrupted (env : Env) : Prop :=
  forall k, sigint env k = None.

(** Two successive clock readings are at most [L] apart. *)
Definition tick_latency_at_most (env : Env) (L : Q) : Prop :=
  forall k, perf_counter env (S k) - perf_counter env k <= L.

(** The clock gets [span] past its first reading at some call. *)
Definition clock_reaches (env : Env) (span : Q) : Prop :=
  exists k, span <= perf_counter env k - perf_counter env 0%nat.

(** Worlds reached by completed ticks of one run. *)
Inductive completed_ticks {D : Type} `{GyemsDRC D} (env : Env)
  : World D -> World D -> Prop :=
  | ticks_none : forall w, completed_ticks env w w
  | ticks_more : forall w w1 w2 t0 t,
      completed_ticks env w w1 ->
      tick env t0 w1 = (Ok t, w2) ->
      completed_ticks env w w2.

(** The wall-clock duration of the loop: what the clock reads when the
    loop is left, minus what it read before the loop ([w0] is the world
    before [simulate], [w] the world with which the loop is left). *)
Definition loop_duration {D : Type} (env : Env) (w0 w : World D) : Q :=
  perf_counter env (reads w) - perf_counter env (reads w0).

(** The driver calls after the loop, by the way the loop was left:
    through the KeyboardInterrupt handler and the [finally] block, or
    through the [finally] block alone. *)
Definition calls_after_loop (left : result unit) : list call :=
  match left with
  | Raise KeyboardInterrupt => [CSetCurrent 0; CSetCurrent 0; CDisable]
  | _ => [CSetCurrent 0; CDisable]
  end.

(** ** The estimator's input as the specification describes it *)

Definition pairwise_distinct (t : list Q) : Prop :=
  forall i j, (i < j < List.length t)%nat -> ~ nth i t 0 == nth j t 0.

(** The column of forward differences, [n - 1] entries for [n] samples. *)
Definition fd_column (t dq : list Q) : list Q :=
  map (forward_difference t dq) (seq 0 (List.length dq - 1)).

(** [(p0, p1)] minimises the sum of squared residuals of
    [I ~ p0 * x + p1 * y]. *)
Definition least_squares (x y I : list Q) (p0 p1 : Q) : Prop :=
  forall q0 q1, sse x y I p0 p1 <= sse x y I q0 q1.

(** Among the minimisers, [(p0, p1)] has the least Euclidean norm. *)
Definition minimum_norm (x y I : list Q) (p0 p1 : Q) : Prop :=
  forall q0 q1, least_squares x y I q0 q1 ->
    p0 * p0 + p1 * p1 <= q0 * q0 + q1 * q1.

(** ** [Model.plot], the whole of [simulate], and the script

    [plot] (lines 87-107) slices the columns, draws them and then prints
    the pair returned by [get_params].  Of the drawing only the check of
    [axes.plot(t, y)] that [t] and [y] have one length is modelled.
    [plot_report] is what [plot] prints as (Moment of inertia, Friction
    coefficient), or what it raises. *)
Definition plot_report (time : list Q) (state : list StateRow) : estimate :=
  match state with
  | [] => Raises IndexError                        (* state[:, 0], line 88 *)
  | _ :: _ =>
      if (List.length time =? List.length state)%nat
      then get_params time state                   (* line 105 *)
      else Raises ValueError                       (* axes[0].plot(t, q) *)
  end.

(** The zero current command and [disable] return normally. *)
Definition cleanup_safe (D : Type) `{GyemsDRC D} : Prop :=
  zero_command_safe D /\ forall d, exists d', disable d = Done d'.

(** The clock never runs backwards. *)
Definition monotone_clock (env : Env) : Prop :=
  forall k, perf_counter env k <= perf_counter env (S k).

Definition nondecreasing (l : list Q) : Prop :=
  forall i j, (i <= j < List.length l)%nat -> nth i l 0 <= nth j l 0.

(** Every recorded row obeys the control law with the recorded error:
    [u = kp * error + kd * (dq_def - dq)]. *)
Definition pd_consistent {D} (m : Model D) : Prop :=
  forall i, (i < List.length (state m))%nat ->
    row_u (nth i (state m) (mkRow 0 0 0 0))
    = kp m * nth i (error m) 0
      + kd m * (initial_velocity m
                - row_dq (nth i (state m) (mkRow 0 0 0 0))).

Section Script.

Context {D : Type} `{GyemsDRC D}.
Variable env : Env.

(** Lines 128-130, the [finally] block with its call of [plot].  [None]
    when [get_params] meets a zero time step: what numpy does with the
    resulting inf or nan is outside the model. *)
Definition finally_block (w : World D) : option (result unit * World D) :=
  match shutdown w with
  | (Ok _, w1) =>
      match plot_report (time (self w1)) (state (self w1)) with
      | Params _ _ | Truncated => Some (Ok tt, w1)
      | Raises e => Some (Raise e, w1)
      | NonFinite => None
      end
  | (r, w1) => Some (r, w1)
  end.

(** Lines 114-130: [simulate] with the call of [plot] that [simulate]
    above leaves out. *)
Definition simulate_plot (fuel : nat) (w : World D)
  : option (result unit * World D) :=
  match clock env w with
  | (Ok t0, w0) =>
      match try_except (while_loop env fuel t0 0) KeyboardInterrupt
                       interrupt_handler w0 with
      | (OutOfFuel, w1) => Some (OutOfFuel, w1)
      | (r, w1) =>
          match finally_block w1 with
          | Some (Ok _, w2) => Some (r, w2)
          | other => other
          end
      end
  | (Raise e, w0) => Some (Raise e, w0)
  | (OutOfFuel, w0) => Some (OutOfFuel, w0)
  end.

(** Lines 136-139: [model = Model(motor, dev_param); model.simulate()]. *)
Definition main (dev : D) (device_params : DeviceParams.t) (fuel : nat)
  : option (result unit * World D) :=
  match Model_init dev device_params with
  | (Ok _, w) => simulate_plot fuel w
  | (r, w) => Some (r, w)
  end.

End Script.

(** A driver whose state lacks the key ['speed']. *)
Record Bare : Type := mkBare {
  b_angle : Q
}.

#[export] Instance Bare_GyemsDRC : GyemsDRC Bare := {
  dev_state := fun d key =>
    if String.eqb key "angle" then Some (b_angle d) else None;
  set_degrees := fun d => Done d;
  set_current_limit := fun _ d => Done d;
  enable := fun d => Fails DeviceError;
  disable := fun d => Done d;
  set_current := fun _ d => Done d
}.

(** * Theorems *)

(** ** Inner products *)

Module NpFacts.
Import Np.

Lemma dot_comm : forall x y, dot x y == dot y x.
Proof.
  induction x as [|a x IH]; destruct y as [|b y]; simpl; try reflexivity.
  rewrite IH. ring.
Qed.

Lemma dot_self_nonneg : forall x, 0 <= dot x x.
Proof.
  induction x as [|a x IH]; simpl; [lra|].
  assert (0 <= a * a) by nra. lra.
Qed.

Lemma dot_self_zero : forall w, dot w w == 0 -> forall v, dot w v == 0.
Proof.
  induction w as [|a w IH]; intros Hw v; destruct v as [|b v]; simpl;
    try reflexivity.
  simpl in Hw.
  pose proof (dot_self_nonneg w) as Hn.
  assert (Ha : a == 0) by nra.
  assert (Hw' : dot w w == 0) by nra.
  rewrite (IH Hw' v), Ha. ring.
Qed.

Lemma lin_length : forall alpha beta x y,
  List.length x = List.length y ->
  List.length (lin alpha x beta y) = List.length x.
Proof.
  induction x as [|a x IH]; destruct y as [|b y]; simpl; intros Hl;
    try discriminate; [reflexivity|].
  f_equal. apply IH. now injection Hl.
Qed.

Lemma dot_lin_r : forall alpha beta v x y,
  List.length x = List.length y ->
  dot v (lin alpha x beta y) == alpha * dot v x + beta * dot v y.
Proof.
  induction v as [|c v IH]; intros x y Hl.
  - simpl. ring.
  - destruct x as [|a x], y as [|b y]; simpl in *; try discriminate.
    + ring.
    + rewrite IH by now injection Hl. ring.
Qed.

Lemma dot_lin_l : forall alpha beta v x y,
  List.length x = List.length y ->
  dot (lin alpha x beta y) v == alpha * dot x v + beta * dot y v.
Proof.
  intros. rewrite dot_comm, dot_lin_r by assumption.
  rewrite (dot_comm v x), (dot_comm v y). reflexivity.
Qed.

End NpFacts.

(** ** The 2x2 normal equations solved by [Np.pinv_coeffs] *)

Lemma Qsquare_nonneg : forall z : Q, 0 <= z * z.
Proof.
  intro z. destruct (Qlt_le_dec z 0) as [Hn|Hp].
  - setoid_replace (z * z) with ((- z) * (- z)) by ring.
    apply Qmult_le_0_compat; lra.
  - apply Qmult_le_0_compat; assumption.
Qed.

Lemma both_kept_det : forall a b c,
  Np.both_kept a b c = true -> 0 < Np.gram_det a b c.
Proof.
  intros a b c. unfold Np.both_kept. rewrite negb_true_iff.
  intros Hk.
  destruct (Qlt_le_dec 0 (Np.gram_det a b c)) as [|Hle]; [assumption|].
  exfalso.
  assert (Hle' : Np.gram_det a b c
                 * ((1 + Np.rcond2) * (1 + Np.rcond2))
                 <= Np.rcond2 * ((a + c) * (a + c))).
  { pose proof (Qsquare_nonneg (a + c)) as Hs.
    pose proof (Qsquare_nonneg (1 + Np.rcond2)) as Hk2.
    assert (0 <= Np.rcond2) by (unfold Np.rcond2; discriminate).
    apply Qle_trans with 0.
    - setoid_replace 0 with (0 * ((1 + Np.rcond2) * (1 + Np.rcond2)))
        by ring.
      apply Qmult_le_compat_r; assumption.
    - apply Qmult_le_0_compat; assumption. }
  apply Qle_bool_iff in Hle'. congruence.
Qed.

(** The test of [both_kept] is the cut-off on the singular values: for
    a Gram matrix with eigenvalues [l1 >= l2 >= 0], both are kept
    exactly when [l2 > rcond^2 * l1]. *)
Lemma both_kept_eigenvalues : forall a b c l1 l2,
  0 <= l2 -> l2 <= l1 -> 0 < l1 ->
  a + c == l1 + l2 ->
  Np.gram_det a b c == l1 * l2 ->
  (Np.both_kept a b c = true <-> Np.rcond2 * l1 < l2).
Proof.
  intros a b c l1 l2 H2 H21 H1 Ht Hd.
  assert (Hk : 0 < Np.rcond2 /\ Np.rcond2 < 1)
    by (unfold Np.rcond2; split; reflexivity).
  destruct Hk as [Hk0 Hk1].
  assert (Hpos : 0 < l1 - Np.rcond2 * l2) by nra.
  assert (Hid : Np.gram_det a b c * ((1 + Np.rcond2) * (1 + Np.rcond2))
                - Np.rcond2 * ((a + c) * (a + c))
                == (l2 - Np.rcond2 * l1) * (l1 - Np.rcond2 * l2)).
  { rewrite Hd, Ht. ring. }
  unfold Np.both_kept. rewrite negb_true_iff.
  destruct (Qle_bool _ _) eqn:E.
  - apply Qle_bool_iff in E. split; [discriminate|]. intros Hlt.
    exfalso.
    assert (0 < (l2 - Np.rcond2 * l1) * (l1 - Np.rcond2 * l2))
      by (apply Qmult_lt_0_compat; lra).
    lra.
  - split; [intros _ | reflexivity].
    destruct (Qlt_le_dec (Np.rcond2 * l1) l2) as [|Hle]; [assumption|].
    exfalso.
    assert (Hn : (l2 - Np.rcond2 * l1) * (l1 - Np.rcond2 * l2) <= 0).
    { setoid_replace ((l2 - Np.rcond2 * l1) * (l1 - Np.rcond2 * l2))
        with (- ((Np.rcond2 * l1 - l2) * (l1 - Np.rcond2 * l2))) by ring.
      assert (0 <= (Np.rcond2 * l1 - l2) * (l1 - Np.rcond2 * l2))
        by (apply Qmult_le_0_compat; lra).
      lra. }
    assert (E' : Qle_bool
                   (Np.gram_det a b c
                    * ((1 + Np.rcond2) * (1 + Np.rcond2)))
                   (Np.rcond2 * ((a + c) * (a + c))) = true)
      by (apply Qle_bool_iff; lra).
    congruence.
Qed.

Section NormalEquations.

Variables a b c r0 r1 : Q.
Hypothesis Ha : 0 <= a.
Hypothesis Hc : 0 <= c.
(** Consequences of [a = x.x], [b = x.y], [c = y.y], [r0 = I.x] and
    [r1 = I.y] for columns [x], [y], [I]. *)
Hypothesis Hsing : Np.gram_det a b c == 0 -> c * r0 == b * r1 /\ a * r1 == b * r0.
Hypothesis Hzero : a + c == 0 -> r0 == 0 /\ r1 == 0.

(** The coefficient matrix when no non-zero singular value is dropped. *)
Lemma pinv_coeffs_untruncated :
  untruncated a b c ->
  (a + c == 0 /\ Np.pinv_coeffs a b c = Some ((0, 0), (0, 0))) \/
  (~ a + c == 0 /\ ~ Np.gram_det a b c == 0 /\
   Np.pinv_coeffs a b c
   = Some ((c / Np.gram_det a b c, - b / Np.gram_det a b c),
           (- b / Np.gram_det a b c, a / Np.gram_det a b c))) \/
  (~ a + c == 0 /\ Np.gram_det a b c == 0 /\
   Np.pinv_coeffs a b c = Some ((1 / (a + c), 0), (0, 1 / (a + c)))).
Proof.
  clear Ha Hc Hsing Hzero.
  intros Hu. unfold Np.pinv_coeffs.
  destruct (Qeq_bool (a + c) 0) eqn:Ht.
  - apply Qeq_bool_eq in Ht. left. split; [assumption | reflexivity].
  - apply Qeq_bool_neq in Ht. right.
    destruct (Np.both_kept a b c) eqn:Hk.
    + left. pose proof (both_kept_det a b c Hk) as Hd.
      split; [assumption|]. split; [lra | reflexivity].
    + right. destruct Hu as [Hu|[Hu|Hu]]; [contradiction | congruence |].
      apply Qeq_bool_iff in Hu. rewrite Hu. apply Qeq_bool_iff in Hu.
      split; [assumption|]. split; [assumption | reflexivity].
Qed.

Lemma pinv_coeffs_normal :
  forall M p0 p1,
    untruncated a b c ->
    Np.pinv_coeffs a b c = Some M ->
    p0 == fst (fst M) * r0 + snd (fst M) * r1 ->
    p1 == fst (snd M) * r0 + snd (snd M) * r1 ->
    a * p0 + b * p1 == r0 /\ b * p0 + c * p1 == r1.
Proof.
  intros M p0 p1 Hu HM.
  destruct (pinv_coeffs_untruncated Hu)
    as [[Ht E]|[(Ht & Hd & E)|(Ht & Hd & E)]];
    rewrite E in HM; injection HM as <-; simpl.
  - destruct (Hzero Ht) as [Z0 Z1].
    intros -> ->. rewrite Z0, Z1. split; ring.
  - intros -> ->. unfold Np.gram_det in *. split; field; exact Hd.
  - destruct (Hsing Hd) as [E1 E2]. intros -> ->. split.
    + setoid_replace (a * (1 / (a + c) * r0 + 0 * r1)
                      + b * (0 * r0 + 1 / (a + c) * r1))
        with ((a * r0 + b * r1) / (a + c)) by (field; exact Ht).
      rewrite <- E1.
      field. exact Ht.
    + setoid_replace (b * (1 / (a + c) * r0 + 0 * r1)
                      + c * (0 * r0 + 1 / (a + c) * r1))
        with ((b * r0 + c * r1) / (a + c)) by (field; exact Ht).
      rewrite <- E2.
      field. exact Ht.
Qed.

Lemma pinv_coeffs_least_norm :
  forall M p0 p1 q0 q1,
    untruncated a b c ->
    Np.pinv_coeffs a b c = Some M ->
    p0 == fst (fst M) * r0 + snd (fst M) * r1 ->
    p1 == fst (snd M) * r0 + snd (snd M) * r1 ->
    a * q0 + b * q1 == r0 ->
    b * q0 + c * q1 == r1 ->
    p0 * p0 + p1 * p1 <= q0 * q0 + q1 * q1.
Proof.
  intros M p0 p1 q0 q1 Hu HM.
  destruct (pinv_coeffs_untruncated Hu)
    as [[Ht E]|[(Ht & Hd & E)|(Ht & Hd & E)]];
    rewrite E in HM; injection HM as <-; simpl.
  - intros -> -> _ _.
    pose proof (Qsquare_nonneg q0). pose proof (Qsquare_nonneg q1).
    ring_simplify. lra.
  - intros Hp0 Hp1 Hq0 Hq1.
    unfold Np.gram_det in Hd, Hp0, Hp1.
    assert (P0 : p0 == q0).
    { rewrite Hp0, <- Hq0, <- Hq1. field. exact Hd. }
    assert (P1 : p1 == q1).
    { rewrite Hp1, <- Hq0, <- Hq1. field. exact Hd. }
    rewrite P0, P1. lra.
  - intros Hp0 Hp1 Hq0 Hq1.
    assert (Tpos : 0 < a + c).
    { destruct (Qlt_le_dec 0 (a + c)) as [|Hle]; [assumption|].
      exfalso. apply Ht. lra. }
    assert (E0 : (a + c) * p0 == a * q0 + b * q1).
    { rewrite Hp0, Hq0. field. exact Ht. }
    assert (E1 : (a + c) * p1 == b * q0 + c * q1).
    { rewrite Hp1, Hq1. field. exact Ht. }
    unfold Np.gram_det in Hd.
    assert (Id : (a + c) * (a + c) * (q0 * q0 + q1 * q1)
                 - ((a * q0 + b * q1) * (a * q0 + b * q1)
                    + (b * q0 + c * q1) * (b * q0 + c * q1))
                 == (a * q1 - b * q0) * (a * q1 - b * q0)
                    + (c * q0 - b * q1) * (c * q0 - b * q1)
                    + 2 * (a * c - b * b) * (q0 * q0 + q1 * q1)) by ring.
    rewrite Hd in Id. rewrite <- E0, <- E1 in Id.
    pose proof (Qsquare_nonneg (a * q1 - b * q0)) as S1.
    pose proof (Qsquare_nonneg (c * q0 - b * q1)) as S2.
    assert (G : 0 <= (a + c) * (a + c)
                      * (q0 * q0 + q1 * q1 - (p0 * p0 + p1 * p1))).
    { setoid_replace ((a + c) * (a + c)
                      * (q0 * q0 + q1 * q1 - (p0 * p0 + p1 * p1)))
        with ((a + c) * (a + c) * (q0 * q0 + q1 * q1)
              - ((a + c) * p0 * ((a + c) * p0)
                 + (a + c) * p1 * ((a + c) * p1))) by ring.
      rewrite Id. lra. }
    assert (T2 : 0 < (a + c) * (a + c)) by nra.
    destruct (Qlt_le_dec (q0 * q0 + q1 * q1) (p0 * p0 + p1 * p1));
      [exfalso; nra | assumption].
Qed.

End NormalEquations.

(** ** Least squares through the pseudo-inverse *)

Section Columns.
Import Np NpFacts.

Variables x y I : list Q.
Hypothesis Hxy : List.length x = List.length y.
Hypothesis HIx : List.length I = List.length x.

Lemma quad_form : forall d0 d1,
  dot (lin d0 x d1 y) (lin d0 x d1 y)
  == d0 * d0 * dot x x + 2 * d0 * d1 * dot x y + d1 * d1 * dot y y.
Proof.
  intros. rewrite dot_lin_l by assumption.
  rewrite !dot_lin_r by assumption.
  rewrite (dot_comm y x). ring.
Qed.

Lemma gram_singular :
  gram_det (dot x x) (dot x y) (dot y y) == 0 ->
  dot y y * dot I x == dot x y * dot I y /\
  dot x x * dot I y == dot x y * dot I x.
Proof.
  unfold gram_det. intros Hd. split.
  - assert (Hw : dot (lin (dot y y) x (- dot x y) y)
                     (lin (dot y y) x (- dot x y) y) == 0).
    { rewrite quad_form.
      setoid_replace (dot y y * dot y y * dot x x
                      + 2 * dot y y * - dot x y * dot x y
                      + - dot x y * - dot x y * dot y y)
        with (dot y y * (dot x x * dot y y - dot x y * dot x y)) by ring.
      rewrite Hd. ring. }
    pose proof (dot_self_zero _ Hw I) as Hz.
    rewrite dot_lin_l in Hz by assumption.
    rewrite (dot_comm I x), (dot_comm I y). lra.
  - assert (Hw : dot (lin (- dot x y) x (dot x x) y)
                     (lin (- dot x y) x (dot x x) y) == 0).
    { rewrite quad_form.
      setoid_replace (- dot x y * - dot x y * dot x x
                      + 2 * - dot x y * dot x x * dot x y
                      + dot x x * dot x x * dot y y)
        with (dot x x * (dot x x * dot y y - dot x y * dot x y)) by ring.
      rewrite Hd. ring. }
    pose proof (dot_self_zero _ Hw I) as Hz.
    rewrite dot_lin_l in Hz by assumption.
    rewrite (dot_comm I x), (dot_comm I y). lra.
Qed.

Lemma gram_zero :
  dot x x + dot y y == 0 -> dot I x == 0 /\ dot I y == 0.
Proof.
  intros Hs.
  pose proof (dot_self_nonneg x). pose proof (dot_self_nonneg y).
  assert (Hx : dot x x == 0) by lra.
  assert (Hy : dot y y == 0) by lra.
  rewrite (dot_comm I x), (dot_comm I y).
  split; apply dot_self_zero; assumption.
Qed.

Lemma sse_expand : forall q0 q1,
  sse x y I q0 q1
  == dot I I - 2 * (q0 * dot I x + q1 * dot I y)
     + (q0 * q0 * dot x x + 2 * q0 * q1 * dot x y + q1 * q1 * dot y y).
Proof.
  intros. unfold sse.
  assert (Hz : List.length I = List.length (lin q0 x q1 y)).
  { rewrite lin_length by assumption. assumption. }
  rewrite dot_lin_l by assumption.
  rewrite !dot_lin_r by assumption.
  rewrite !dot_lin_l by assumption.
  rewrite (dot_comm y x), (dot_comm x I), (dot_comm y I).
  ring.
Qed.

(** With the normal equations, the residual grows by the quadratic form
    of the difference. *)
Lemma sse_difference : forall p0 p1 q0 q1,
  dot x x * p0 + dot x y * p1 == dot I x ->
  dot x y * p0 + dot y y * p1 == dot I y ->
  sse x y I q0 q1
  == sse x y I p0 p1
     + dot (lin (q0 - p0) x (q1 - p1) y) (lin (q0 - p0) x (q1 - p1) y).
Proof.
  intros p0 p1 q0 q1 N0 N1.
  rewrite !sse_expand, quad_form, <- N0, <- N1. ring.
Qed.

Lemma normal_least_squares : forall p0 p1,
  dot x x * p0 + dot x y * p1 == dot I x ->
  dot x y * p0 + dot y y * p1 == dot I y ->
  least_squares x y I p0 p1.
Proof.
  intros p0 p1 N0 N1 q0 q1.
  rewrite (sse_difference p0 p1 q0 q1 N0 N1).
  pose proof (dot_self_nonneg (lin (q0 - p0) x (q1 - p1) y)). lra.
Qed.

Lemma least_squares_normal : forall p0 p1 q0 q1,
  dot x x * p0 + dot x y * p1 == dot I x ->
  dot x y * p0 + dot y y * p1 == dot I y ->
  least_squares x y I q0 q1 ->
  dot x x * q0 + dot x y * q1 == dot I x /\
  dot x y * q0 + dot y y * q1 == dot I y.
Proof.
  intros p0 p1 q0 q1 N0 N1 Hq.
  pose proof (Hq p0 p1) as Hle.
  rewrite (sse_difference p0 p1 q0 q1 N0 N1) in Hle.
  pose proof (dot_self_nonneg (lin (q0 - p0) x (q1 - p1) y)) as Hn.
  assert (Hw : dot (lin (q0 - p0) x (q1 - p1) y)
                   (lin (q0 - p0) x (q1 - p1) y) == 0) by lra.
  pose proof (dot_self_zero _ Hw x) as Zx.
  pose proof (dot_self_zero _ Hw y) as Zy.
  rewrite dot_lin_l in Zx, Zy by assumption.
  rewrite (dot_comm y x) in Zx.
  split; lra.
Qed.

Lemma row_matmul_pinv : forall M,
  pinv_coeffs (dot x x) (dot x y) (dot y y) = Some M ->
  exists P,
    pinv x y = Some P /\
    fst (row_matmul I P)
    == fst (fst M) * dot I x + snd (fst M) * dot I y /\
    snd (row_matmul I P)
    == fst (snd M) * dot I x + snd (snd M) * dot I y.
Proof.
  intros [[m00 m01] [m10 m11]] HM. unfold pinv. rewrite HM.
  eexists. split; [reflexivity|].
  unfold row_matmul. simpl. split; apply dot_lin_r; assumption.
Qed.

(** When no non-zero singular value is dropped, the row
    [I.T @ pinv([x, y])] is the least-squares solution of least norm,
    whatever the rank of [[x, y]]. *)
Lemma pinv_solves :
  untruncated (dot x x) (dot x y) (dot y y) ->
  exists P,
    pinv x y = Some P /\
    least_squares x y I (fst (row_matmul I P)) (snd (row_matmul I P)) /\
    minimum_norm x y I (fst (row_matmul I P)) (snd (row_matmul I P)).
Proof.
  intros Hu.
  pose proof (dot_self_nonneg x) as Ha.
  pose proof (dot_self_nonneg y) as Hc.
  assert (HM : exists M,
            pinv_coeffs (dot x x) (dot x y) (dot y y) = Some M).
  { destruct (pinv_coeffs_untruncated _ _ _ Hu)
      as [[_ E]|[(_ & _ & E)|(_ & _ & E)]]; eauto. }
  destruct HM as [M HM].
  destruct (row_matmul_pinv M HM) as (P & HP & E0 & E1).
  exists P. split; [exact HP|].
  destruct (pinv_coeffs_normal _ _ _ _ _ gram_singular gram_zero _ _ _
              Hu HM E0 E1) as [N0 N1].
  split.
  - apply normal_least_squares; assumption.
  - intros q0 q1 Hq.
    destruct (least_squares_normal _ _ q0 q1 N0 N1 Hq) as [M0 M1].
    exact (pinv_coeffs_least_norm _ _ _ _ _ Ha Hc _ _ _ q0 q1 Hu HM
             E0 E1 M0 M1).
Qed.

End Columns.

(** ** [get_params] on aligned recordings *)

Lemma diff_length : forall l, List.length (Np.diff l) = (List.length l - 1)%nat.
Proof.
  induction l as [|a [|b l] IH]; simpl in *; try reflexivity.
  rewrite IH. lia.
Qed.

Lemma zip_div_fd : forall dq t,
  List.length t = List.length dq ->
  Np.zip_div (Np.diff dq) (Np.diff t) = fd_column t dq.
Proof.
  unfold fd_column.
  induction dq as [|d0 [|d1 dq] IH]; intros [|t0 [|t1 t]] Hl;
    simpl in Hl; try discriminate; try reflexivity.
  injection Hl as Hl.
  change (Np.diff (d0 :: d1 :: dq)) with ((d1 - d0) :: Np.diff (d1 :: dq)).
  change (Np.diff (t0 :: t1 :: t)) with ((t1 - t0) :: Np.diff (t1 :: t)).
  cbn [Np.zip_div].
  rewrite (IH (t1 :: t)) by (simpl; congruence).
  cbn [List.length]. rewrite !Nat.sub_succ, !Nat.sub_0_r.
  rewrite <- cons_seq, <- seq_shift, map_cons, map_map.
  reflexivity.
Qed.

Lemma pairwise_distinct_tail : forall a t,
  pairwise_distinct (a :: t) -> pairwise_distinct t.
Proof.
  intros a t Hp i j Hij. apply (Hp (S i) (S j)). simpl. lia.
Qed.

Lemma distinct_steps_nonzero : forall t,
  pairwise_distinct t -> forallb Np.nonzero (Np.diff t) = true.
Proof.
  induction t as [|t0 [|t1 t] IH]; intros Hp; try reflexivity.
  change (Np.diff (t0 :: t1 :: t)) with ((t1 - t0) :: Np.diff (t1 :: t)).
  cbn [forallb]. rewrite (IH (pairwise_distinct_tail _ _ Hp)).
  rewrite andb_true_r. unfold Np.nonzero.
  destruct (Qeq_bool (t1 - t0) 0) eqn:E; [|reflexivity].
  apply Qeq_bool_eq in E. exfalso.
  apply (Hp 0%nat 1%nat); [simpl; lia|]. simpl. lra.
Qed.

Lemma tl_length : forall (A : Type) (l : list A),
  List.length (tl l) = (List.length l - 1)%nat.
Proof. destruct l; simpl; lia. Qed.

Lemma fd_column_length : forall t dq,
  List.length (fd_column t dq) = (List.length dq - 1)%nat.
Proof. intros. unfold fd_column. now rewrite length_map, length_seq. Qed.

Lemma get_params_on_aligned :
  forall (time : list Q) (state : list StateRow),
    state <> [] ->
    List.length time = List.length state ->
    pairwise_distinct time ->
    get_params time state
    = match Np.pinv (tl (map row_dq state))
                    (fd_column time (map row_dq state)) with
      | Some P =>
          Params (fst (Np.row_matmul (tl (map row_I state)) P))
                 (snd (Np.row_matmul (tl (map row_I state)) P))
      | None => Truncated
      end.
Proof.
  intros time state Hne Hl Hd.
  assert (Hdq : List.length (map row_dq state) = List.length state)
    by apply length_map.
  unfold get_params. destruct state as [|r0 state]; [congruence|].
  unfold Np.divide. rewrite !diff_length, Hl, Hdq, Nat.eqb_refl.
  rewrite (distinct_steps_nonzero _ Hd).
  rewrite zip_div_fd by congruence.
  rewrite tl_length, fd_column_length, Nat.eqb_refl. reflexivity.
Qed.

Lemma three_times_distinct : pairwise_distinct [0; 1; 2].
Proof.
  intros i j Hij. simpl in Hij.
  destruct i as [|[|[|i]]]; destruct j as [|[|[|j]]]; try lia;
    simpl; intro E; vm_compute in E; discriminate.
Defined.

Lemma slow_times_distinct : pairwise_distinct slow_times.
Proof.
  intros i j Hij. simpl in Hij.
  destruct i as [|[|[|i]]]; destruct j as [|[|[|j]]]; try lia;
    simpl; intro E; vm_compute in E; discriminate.
Qed.

(** C7, as stated, fails: on a recording of three samples with distinct
    timestamps whose velocity and acceleration columns are nearly
    dependent (singular values in the ratio 2^-59, below the cut-off
    1e-15 of [np.linalg.pinv]), the estimator returns [(1/2, 0)], which
    is not a least-squares solution: its squared residual is 2, while
    [(1/2, 2^59)] fits the data with residual 0. *)
Lemma nearly_dependent_columns_not_least_squares :
  (2 <= List.length slow_samples)%nat /\
  List.length slow_times = List.length slow_samples /\
  pairwise_distinct slow_times /\
  exists p0 p1,
    get_params slow_times slow_samples = Params p0 p1 /\
    p0 == 1 # 2 /\ p1 == 0 /\
    sse (tl (map row_dq slow_samples))
        (fd_column slow_times (map row_dq slow_samples))
        (tl (map row_I slow_samples)) p0 p1 == 2 /\
    sse (tl (map row_dq slow_samples))
        (fd_column slow_times (map row_dq slow_samples))
        (tl (map row_I slow_samples)) (1 # 2) (inject_Z (2 ^ 59)) == 0 /\
    ~ least_squares (tl (map row_dq slow_samples))
        (fd_column slow_times (map row_dq slow_samples))
        (tl (map row_I slow_samples)) p0 p1.
Proof.
  split; [simpl; lia|]. split; [reflexivity|].
  split; [exact slow_times_distinct|].
  eexists. eexists. split; [vm_compute; reflexivity|].
  split; [vm_compute; reflexivity|]. split; [vm_compute; reflexivity|].
  split; [vm_compute; reflexivity|]. split; [vm_compute; reflexivity|].
  intros Hls. specialize (Hls (1 # 2) (inject_Z (2 ^ 59))).
  vm_compute in Hls. apply Hls. reflexivity.
Qed.

(** C7, amended. For a recording of [n >= 2] samples with pairwise
    distinct timestamps, the estimator's acceleration column is the
    column of forward differences
    [(dq_{i+1} - dq_i) / (t_{i+1} - t_i)], [n - 1] entries; velocity and
    current lose their first entry and so have the same [n - 1] entries;
    the system [I ~ p0 * dq + p1 * ddq] is solved by the pseudo-inverse
    with the cut-off of [np.linalg.pinv], which always returns a pair,
    also on rank-deficient data; and whenever no non-zero singular value
    falls under the cut-off (both are above it, or the smaller one is
    zero), the returned pair is the least-squares solution of least
    norm. *)
Theorem get_params_pseudo_inverse_with_cutoff :
  forall (time : list Q) (state : list StateRow),
    (2 <= List.length state)%nat ->
    List.length time = List.length state ->
    pairwise_distinct time ->
    let dq := map row_dq state in
    let I := map row_I state in
    let ddq := fd_column time dq in
    Np.divide (Np.diff dq) (Np.diff time) = Np.Quot ddq /\
    List.length ddq = (List.length state - 1)%nat /\
    List.length (tl dq) = List.length ddq /\
    List.length (tl I) = List.length ddq /\
    returns_pair (get_params time state) /\
    (untruncated (Np.dot (tl dq) (tl dq)) (Np.dot (tl dq) ddq)
                 (Np.dot ddq ddq) ->
     exists p0 p1,
       get_params time state = Params p0 p1 /\
       least_squares (tl dq) ddq (tl I) p0 p1 /\
       minimum_norm (tl dq) ddq (tl I) p0 p1).
Proof.
  intros time state Hn Hl Hd dq I ddq.
  assert (Hne : state <> [])
    by (destruct state; simpl in Hn; [lia | congruence]).
  assert (Hdq : List.length dq = List.length state)
    by (unfold dq; apply length_map).
  assert (HI : List.length I = List.length state)
    by (unfold I; apply length_map).
  assert (Hq : Np.divide (Np.diff dq) (Np.diff time) = Np.Quot ddq).
  { unfold Np.divide. rewrite !diff_length, Hl, Hdq, Nat.eqb_refl.
    rewrite (distinct_steps_nonzero _ Hd).
    unfold ddq. now rewrite zip_div_fd by congruence. }
  assert (L1 : List.length ddq = (List.length state - 1)%nat)
    by (unfold ddq; rewrite fd_column_length; congruence).
  assert (L2 : List.length (tl dq) = List.length ddq)
    by (rewrite tl_length; congruence).
  assert (L3 : List.length (tl I) = List.length ddq)
    by (rewrite tl_length; congruence).
  pose proof (get_params_on_aligned time state Hne Hl Hd) as Hg.
  fold dq in Hg. fold I in Hg. fold ddq in Hg.
  repeat split; try assumption.
  - rewrite Hg. destruct (Np.pinv (tl dq) ddq); exact Logic.I.
  - intros Hu.
    destruct (pinv_solves (tl dq) ddq (tl I) L2 ltac:(congruence) Hu)
      as (P & HP & Hls & Hmn).
    rewrite HP in Hg.
    exists (fst (Np.row_matmul (tl I) P)), (snd (Np.row_matmul (tl I) P)).
    split; [exact Hg|]. split; assumption.
Qed.

Lemma get_params_pseudo_inverse_with_cutoff_witness :
  exists p0 p1,
    get_params [0; 1; 2] three_samples = Params p0 p1 /\
    least_squares [1; 3] (fd_column [0; 1; 2] [0; 1; 3]) [5 # 2; 11 # 2]
                  p0 p1.
Proof.
  destruct (get_params_pseudo_inverse_with_cutoff [0; 1; 2] three_samples)
    as (_ & _ & _ & _ & _ & Hex).
  - simpl. lia.
  - reflexivity.
  - exact three_times_distinct.
  - destruct Hex as (p0 & p1 & E & LS & _).
    + right. left. vm_compute. reflexivity.
    + exists p0, p1. split; [exact E | exact LS].
Defined.

(** C1. On samples generated exactly by [I = 2 * ddq + 1/2 * dq]
    (inertia 2, friction 1/2) the estimator returns [(1/2, 2)]: the first
    component, which [plot] prints as the moment of inertia, is the
    coefficient of the velocity [dq], and the second is the coefficient
    of the acceleration [ddq]. *)
Theorem get_params_returns_velocity_coefficient_first :
  exists first second,
    get_params [0; 1; 2] three_samples = Params first second /\
    first == 1 # 2 /\ second == 2 /\ ~ first == 2 /\
    fd_column [0; 1; 2] (map row_dq three_samples) = [1; 2] /\
    sse [1; 3] [1; 2] [5 # 2; 11 # 2] (1 # 2) 2 == 0.
Proof.
  eexists. eexists. split; [vm_compute; reflexivity|].
  repeat split; try (vm_compute; reflexivity).
  intro E. vm_compute in E. discriminate.
Qed.

(** C4, as stated, fails: on a single sample the estimator returns the
    pair [(0, 0)] and raises nothing. *)
Lemma get_params_one_sample_returns :
  get_params [0] [mkRow 0 1 2 3] = Params 0 0 /\
  (forall e, get_params [0] [mkRow 0 1 2 3] <> Raises e).
Proof. split; [reflexivity | intros e; discriminate]. Qed.

(** C4, amended. The estimator has no check on the number of samples:
    on one sample it returns [(0, 0)], on none it raises IndexError, and
    on two samples with distinct timestamps it returns a pair. *)
Theorem get_params_sample_count :
  forall t0 t1 s0 s1,
    ~ t0 == t1 ->
    get_params [t0] [s0] = Params 0 0 /\
    get_params [] [] = Raises IndexError /\
    exists p0 p1, get_params [t0; t1] [s0; s1] = Params p0 p1.
Proof.
  intros t0 t1 s0 s1 Hd. split; [reflexivity|]. split; [reflexivity|].
  assert (Hpd : pairwise_distinct [t0; t1]).
  { intros i j Hij. simpl in Hij.
    destruct i as [|[|i]]; destruct j as [|[|j]]; try lia.
    simpl. exact Hd. }
  rewrite (get_params_on_aligned [t0; t1] [s0; s1]);
    [|discriminate | reflexivity | exact Hpd].
  destruct (pinv_solves (tl (map row_dq [s0; s1]))
              (fd_column [t0; t1] (map row_dq [s0; s1]))
              (tl (map row_I [s0; s1])) eq_refl eq_refl)
    as (P & -> & _).
  - right. right. unfold Np.gram_det. simpl. ring.
  - eexists. eexists. reflexivity.
Qed.

Lemma get_params_sample_count_witness :
  get_params [0] [mkRow 0 1 2 3] = Params 0 0 /\
  get_params [] [] = Raises IndexError /\
  exists p0 p1,
    get_params [0; 1] [mkRow 0 1 2 3; mkRow 0 2 5 3] = Params p0 p1.
Proof.
  apply (get_params_sample_count 0 1 (mkRow 0 1 2 3) (mkRow 0 2 5 3)).
  intro E. vm_compute in E. discriminate.
Defined.

(** ** One tick of the control loop *)

Ltac run_step :=
  match goal with
  | H : context [match dev_state ?d ?k with _ => _ end] |- _ =>
      destruct (dev_state d k) eqn:?
  | H : context [match sigint ?e ?k with _ => _ end] |- _ =>
      destruct (sigint e k) eqn:?
  | H : context [if point_eqb ?a ?b then _ else _] |- _ =>
      destruct (point_eqb a b) eqn:?
  | H : context [match set_current ?u ?d with _ => _ end] |- _ =>
      destruct (set_current u d) eqn:?
  | H : (_, _) = (_, _) |- _ => inversion H; subst; clear H
  end.

Ltac world_simpl :=
  cbn [self calls reads device kp kd initial_velocity q_def time_stop
       state error time with_device with_state with_error with_time
       fst snd pred] in *.

Ltac run_tick :=
  unfold tick, pd_regulator, bind, ret, gets, modify, read_state, clock,
    checkpoint, device_call in *;
  repeat (world_simpl; run_step).

Lemma Qlt_bool_iff : forall x y, Qlt_bool x y = true <-> x < y.
Proof.
  intros x y. unfold Qlt_bool. rewrite negb_true_iff.
  destruct (Qle_bool y x) eqn:E.
  - apply Qle_bool_iff in E. split; [discriminate | intro; lra].
  - split; [intros _ | reflexivity].
    destruct (Qlt_le_dec x y) as [|Hle]; [assumption|].
    apply Qle_bool_iff in Hle. congruence.
Qed.

Section TickFacts.

Context {D : Type} `{GyemsDRC D}.
Variable env : Env.

(** A tick reads the clock once and leaves the parameters alone; it
    never exhausts fuel. *)
Lemma tick_frame : forall t0 (w : World D) r w',
  tick env t0 w = (r, w') ->
  reads w' = S (reads w) /\
  q_def (self w') = q_def (self w) /\
  time_stop (self w') = time_stop (self w) /\
  r <> OutOfFuel.
Proof.
  intros t0 w r w' Ht. run_tick.
  all: cbn; repeat split; try reflexivity; try discriminate.
Qed.

(** A tick makes at most one driver call, a current command. *)
Lemma tick_calls : forall t0 (w : World D) r w',
  tick env t0 w = (r, w') ->
  calls w' = calls w \/ exists u, calls w' = calls w ++ [CSetCurrent u].
Proof.
  intros t0 w r w' Ht. run_tick.
  all: cbn; try (left; reflexivity); right; eexists; reflexivity.
Qed.

(** A tick appends at most its own timestamp, and appends it when it
    completes. *)
Lemma tick_time : forall t0 (w : World D) r w',
  tick env t0 w = (r, w') ->
  (time (self w') = time (self w) \/
   time (self w') = time (self w) ++ [perf_counter env (reads w) - t0]) /\
  (forall t, r = Ok t ->
     t = perf_counter env (reads w) - t0 /\
     time (self w') = time (self w) ++ [t]).
Proof.
  intros t0 w r w' Ht. run_tick.
  all: cbn; split;
    [ try (left; reflexivity); right; reflexivity
    | intros t E; try discriminate; injection E as <-; split; reflexivity ].
Qed.

(** What a completed tick appends to the three lists. *)
Lemma tick_appends : forall t0 (w : World D) t w',
  tick env t0 w = (Ok t, w') ->
  exists row,
    state (self w') = state (self w) ++ [row] /\
    error (self w') = error (self w) ++ [q_def (self w) - row_q row] /\
    time (self w') = time (self w) ++ [t].
Proof.
  intros t0 w t w' Ht. run_tick.
  all: try discriminate.
  all: cbn; eexists (mkRow _ _ _ _); repeat split; reflexivity.
Qed.

(** The outcome of a tick in which nothing raises. *)
Lemma tick_run : forall t0 (w : World D) q dq i d',
  dev_state (device (self w)) "angle" = Some q ->
  dev_state (device (self w)) "speed" = Some dq ->
  set_current (kp (self w) * (q_def (self w) - q)
               + kd (self w) * (initial_velocity (self w) - dq))
              (device (self w)) = Done d' ->
  dev_state d' "current" = Some i ->
  sigint env (reads w) = None ->
  tick env t0 w =
    (Ok (perf_counter env (reads w) - t0),
     mkWorld
       (mkModel d' (kp (self w)) (kd (self w)) (initial_velocity (self w))
          (q_def (self w)) (time_stop (self w))
          (state (self w)
           ++ [mkRow q dq i
                 (kp (self w) * (q_def (self w) - q)
                  + kd (self w) * (initial_velocity (self w) - dq))])
          (error (self w) ++ [q_def (self w) - q])
          (time (self w) ++ [perf_counter env (reads w) - t0]))
       (calls w
        ++ [CSetCurrent (kp (self w) * (q_def (self w) - q)
                         + kd (self w) * (initial_velocity (self w) - dq))])
       (S (reads w))).
Proof.
  intros t0 w q dq i d' Hq Hdq Hset Hi Hs.
  unfold tick, pd_regulator, bind, ret, gets, modify, read_state, clock,
    checkpoint, device_call.
  repeat (world_simpl;
          first [rewrite Hq | rewrite Hdq | rewrite Hs | rewrite Hset
                | rewrite Hi]).
  reflexivity.
Qed.

(** What a successful construction leaves behind. *)
Lemma Model_init_ok : forall (dev : D) cfg w0,
  Model_init dev cfg = (Ok tt, w0) ->
  reads w0 = 0%nat /\
  state (self w0) = [] /\ error (self w0) = [] /\ time (self w0) = [] /\
  q_def (self w0) = DeviceParams.q_def cfg /\
  time_stop (self w0) = DeviceParams.time_stop cfg /\
  calls w0 = [CSetDegrees;
              CSetCurrentLimit (DeviceParams.current_limit cfg);
              CEnable].
Proof.
  intros dev cfg w0. unfold Model_init, setup, bind, modify, device_call.
  world_simpl.
  destruct (set_degrees dev); world_simpl; [|discriminate].
  destruct (set_current_limit _ _); world_simpl; [|discriminate].
  destruct (enable _); world_simpl; [|discriminate].
  intros E. injection E as <-. cbn. repeat split; reflexivity.
Qed.

End TickFacts.

(** ** The tick: command and record (C6), alignment (C9) *)

(** C6, as stated, fails: the mock driver reports current 0 when the
    first tick starts, and the row recorded by that tick holds 270, the
    current the driver reports after the command 270 was sent. *)
Lemma tick_records_current_after_command :
  dev_state (device (self (snd (Model_init mock0 dev_param)))) "current"
  = Some 0 /\
  exists w1,
    tick (quiet 3) 0 (snd (Model_init mock0 dev_param)) = (Ok 0, w1) /\
    state (self w1) = [mkRow 0 0 270 270] /\
    ~ row_I (nth 0 (state (self w1)) (mkRow 0 0 0 0)) == 0.
Proof.
  split; [reflexivity|].
  eexists. split; [vm_compute; reflexivity|].
  split; [reflexivity|].
  intro E. vm_compute in E. discriminate.
Qed.

(** C6, amended. In a tick in which nothing raises, the command sent is
    [u = kp * (q_def - q) + kd * (dq_def - dq)] for the angle [q] and the
    velocity [dq] read at the start of the tick, and the tick records
    [t = elapsed], [q], [dq], [u] and, as the measured current, the
    current the driver reports after the command has been sent. *)
Theorem tick_sends_pd_command_and_records :
  forall (D : Type) (drv : GyemsDRC D) (env : Env) (t0 : Q) (w : World D)
         (q dq i : Q) (d' : D),
    let u := kp (self w) * (q_def (self w) - q)
             + kd (self w) * (initial_velocity (self w) - dq) in
    let elapsed := perf_counter env (reads w) - t0 in
    dev_state (device (self w)) "angle" = Some q ->
    dev_state (device (self w)) "speed" = Some dq ->
    set_current u (device (self w)) = Done d' ->
    dev_state d' "current" = Some i ->
    sigint env (reads w) = None ->
    exists w',
      tick env t0 w = (Ok elapsed, w') /\
      calls w' = calls w ++ [CSetCurrent u] /\
      state (self w') = state (self w) ++ [mkRow q dq i u] /\
      error (self w') = error (self w) ++ [q_def (self w) - q] /\
      time (self w') = time (self w) ++ [elapsed].
Proof.
  intros D drv env t0 w q dq i d' u elapsed Hq Hdq Hset Hi Hs.
  eexists. split.
  - apply (tick_run env t0 w q dq i d'); assumption.
  - cbn. repeat split; reflexivity.
Qed.

Lemma tick_sends_pd_command_and_records_witness :
  exists w',
    tick (quiet 3) 0 (snd (Model_init mock0 dev_param))
    = (Ok (steady_clock 3 0 - 0), w') /\
    calls w' = calls (snd (Model_init mock0 dev_param))
               ++ [CSetCurrent (3 * (90 - 0) + 3 * (0 - 0))] /\
    state (self w')
    = [mkRow 0 0 (3 * (90 - 0) + 3 * (0 - 0)) (3 * (90 - 0) + 3 * (0 - 0))].
Proof.
  destruct (tick_sends_pd_command_and_records Mock Mock_GyemsDRC (quiet 3) 0
              (snd (Model_init mock0 dev_param)) 0 0
              (3 * (90 - 0) + 3 * (0 - 0))
              (mkMock (0 + (3 * (90 - 0) + 3 * (0 - 0)) / 10)
                      ((3 * (90 - 0) + 3 * (0 - 0)) / 10)
                      (3 * (90 - 0) + 3 * (0 - 0)) 200 true))
    as (w' & Ht & Hc & Hs & _); try reflexivity.
  exists w'. split; [exact Ht|]. split; [exact Hc | exact Hs].
Defined.

Lemma init_aligned :
  forall (D : Type) (drv : GyemsDRC D) (dev : D) (cfg : DeviceParams.t)
         (w0 : World D),
    Model_init dev cfg = (Ok tt, w0) -> aligned (self w0).
Proof.
  intros D drv dev cfg w0 Hinit.
  destruct (Model_init_ok dev cfg w0 Hinit) as (_ & Hs & He & Ht & _).
  unfold aligned. rewrite Hs, He, Ht. simpl.
  repeat split; try reflexivity. intros i Hi. lia.
Qed.

Lemma ticks_preserve_aligned :
  forall (D : Type) (drv : GyemsDRC D) (env : Env) (w1 w : World D),
    completed_ticks env w1 w -> aligned (self w1) -> aligned (self w).
Proof.
  intros D drv env w1 w Hticks.
  induction Hticks as [w | w w1 w2 t0 t _ IH Htick]; intros Hstart;
    [exact Hstart|].
  destruct (IH Hstart) as (L1 & L2 & Hnth).
  destruct (tick_appends env t0 w1 t w2 Htick) as (row & Es & Ee & Et).
  destruct (tick_frame env t0 w1 _ w2 Htick) as (_ & Hq & _).
  unfold aligned. rewrite Es, Ee, Et, Hq, !length_app. simpl.
  repeat split; try congruence.
  intros i Hi.
  destruct (Nat.lt_ge_cases i (List.length (state (self w1)))) as [Hlt|Hge].
  - rewrite !app_nth1 by lia. apply Hnth. exact Hlt.
  - assert (i = List.length (state (self w1))) as -> by lia.
    rewrite (app_nth2 (error (self w1))) by lia.
    rewrite (app_nth2 (state (self w1))) by lia.
    rewrite L2, Nat.sub_diag. reflexivity.
Qed.

(** C9. After every completed tick of a run the three recorded lists
    have one length, and the error recorded at index [i] is [q_def] minus
    the angle in the row recorded at index [i]. *)
Theorem recorded_lists_aligned :
  forall (D : Type) (drv : GyemsDRC D) (env : Env) (dev : D)
         (cfg : DeviceParams.t) (w0 w : World D),
    Model_init dev cfg = (Ok tt, w0) ->
    completed_ticks env w0 w ->
    aligned (self w).
Proof.
  intros D drv env dev cfg w0 w Hinit Hticks.
  apply (ticks_preserve_aligned D drv env w0 w Hticks).
  exact (init_aligned D drv dev cfg w0 Hinit).
Qed.

Lemma recorded_lists_aligned_witness :
  aligned (self (snd (tick (quiet 3) 0 (snd (Model_init mock0 dev_param))))).
Proof.
  apply (recorded_lists_aligned Mock Mock_GyemsDRC (quiet 3) mock0 dev_param
           (snd (Model_init mock0 dev_param))).
  - reflexivity.
  - eapply ticks_more with (t0 := 0).
    + apply ticks_none.
    + vm_compute. reflexivity.
Defined.

(** ** The [while] loop *)

Lemma below_all_but_last_app : forall bound l x,
  Forall (fun y => y < bound) l -> all_but_last_below bound (l ++ [x]).
Proof.
  induction l as [|a l IH]; intros x Hl; simpl; [exact Logic.I|].
  inversion Hl as [|? ? Ha Hl']; subst.
  destruct (l ++ [x]) eqn:E; [destruct l; discriminate|].
  rewrite <- E. split; [assumption | apply IH; assumption].
Qed.

Lemma below_all_but_last : forall bound l,
  Forall (fun y => y < bound) l -> all_but_last_below bound l.
Proof.
  induction l as [|a l IH]; intros Hl; simpl; [exact Logic.I|].
  inversion Hl; subst. destruct l; [exact Logic.I|]. split; auto.
Qed.

Section LoopFacts.

Context {D : Type} `{GyemsDRC D}.
Variable env : Env.

Lemma while_loop_step : forall fuel t0 t (w : World D),
  while_loop env (S fuel) t0 t w =
  if Qlt_bool t (time_stop (self w)) then
    match tick env t0 w with
    | (Ok t', w1) => while_loop env fuel t0 t' w1
    | (Raise e, w1) => (Raise e, w1)
    | (OutOfFuel, w1) => (OutOfFuel, w1)
    end
  else (Ok tt, w).
Proof.
  intros. cbn [while_loop]. unfold bind at 1. unfold gets.
  destruct (Qlt_bool t (time_stop (self w))); reflexivity.
Qed.

(** The loop only sends current commands. *)
Lemma while_loop_calls : forall fuel t0 t (w : World D) r w',
  while_loop env fuel t0 t w = (r, w') ->
  exists cmds,
    calls w' = calls w ++ cmds /\ forallb is_command cmds = true.
Proof.
  induction fuel as [|fuel IH]; intros t0 t w r w' Hrun.
  - injection Hrun as <- <-. exists []. now rewrite app_nil_r.
  - rewrite while_loop_step in Hrun.
    destruct (Qlt_bool t (time_stop (self w))).
    + destruct (tick env t0 w) as [rt wt] eqn:Ht.
      assert (Hc : exists c1, calls wt = calls w ++ c1
                              /\ forallb is_command c1 = true).
      { destruct (tick_calls env t0 w rt wt Ht) as [E|[u E]].
        - exists []. now rewrite app_nil_r.
        - exists [CSetCurrent u]. now split. }
      destruct Hc as (c1 & E1 & F1).
      destruct rt as [t'| e |].
      * destruct (IH _ _ _ _ _ Hrun) as (c2 & E2 & F2).
        exists (c1 ++ c2). rewrite E2, E1, app_assoc. split; [reflexivity|].
        rewrite forallb_app, F1, F2. reflexivity.
      * injection Hrun as <- <-. exists c1. now split.
      * injection Hrun as <- <-. exists c1. now split.
    + injection Hrun as <- <-. exists []. now rewrite app_nil_r.
Qed.

(** Recorded timestamps: each one but the last is below [time_stop],
    and a loop left through its check after starting below [time_stop]
    has recorded something. *)
Lemma while_loop_time : forall fuel t0 t (w : World D) r w',
  (time (self w) = [] \/
   exists l0, time (self w) = l0 ++ [t] /\
              Forall (fun y => y < time_stop (self w)) l0) ->
  while_loop env fuel t0 t w = (r, w') ->
  time_stop (self w') = time_stop (self w) /\
  all_but_last_below (time_stop (self w)) (time (self w')) /\
  exists suffix,
    time (self w') = time (self w) ++ suffix /\
    (r = Ok tt -> t < time_stop (self w) -> suffix <> []).
Proof.
  induction fuel as [|fuel IH]; intros t0 t w r w' Hinv Hrun.
  - injection Hrun as <- <-. split; [reflexivity|]. split.
    + destruct Hinv as [->|(l0 & -> & Hl)];
        [exact Logic.I | now apply below_all_but_last_app].
    + exists []. rewrite app_nil_r. split; [reflexivity | discriminate].
  - rewrite while_loop_step in Hrun.
    destruct (Qlt_bool t (time_stop (self w))) eqn:Hlt.
    + apply Qlt_bool_iff in Hlt.
      assert (Hall : Forall (fun y => y < time_stop (self w)) (time (self w))).
      { destruct Hinv as [->|(l0 & -> & Hl)]; [constructor|].
        apply Forall_app. split; [assumption|]. now repeat constructor. }
      destruct (tick env t0 w) as [rt wt] eqn:Ht.
      destruct (tick_frame env t0 w rt wt Ht) as (_ & _ & Hts & _).
      destruct (tick_time env t0 w rt wt Ht) as (Hcases & Hok).
      assert (Hexit : forall r0, r0 <> Ok tt ->
                time_stop (self wt) = time_stop (self w) /\
                all_but_last_below (time_stop (self w)) (time (self wt)) /\
                exists suffix,
                  time (self wt) = time (self w) ++ suffix /\
                  (r0 = Ok tt -> t < time_stop (self w) -> suffix <> [])).
      { intros r0 Hr0. split; [assumption|]. split.
        - destruct Hcases as [->| ->];
            [now apply below_all_but_last
            | now apply below_all_but_last_app].
        - destruct Hcases as [E|E].
          + exists []. rewrite app_nil_r. split; [assumption|]. tauto.
          + eexists. split; [exact E|]. tauto. }
      destruct rt as [t'| e |].
      * destruct (Hok t' eq_refl) as (_ & Et).
        assert (Hinv' : time (self wt) = [] \/
                  exists l0, time (self wt) = l0 ++ [t'] /\
                    Forall (fun y => y < time_stop (self wt)) l0).
        { right. exists (time (self w)). rewrite Hts. now split. }
        destruct (IH _ _ _ _ _ Hinv' Hrun) as (Hts' & Habl & sfx & Es & _).
        rewrite Hts in Hts', Habl.
        split; [assumption|]. split; [assumption|].
        exists ([t'] ++ sfx). rewrite Es, Et, <- app_assoc.
        split; [reflexivity | discriminate].
      * injection Hrun as <- <-. apply Hexit. discriminate.
      * injection Hrun as <- <-. apply Hexit. discriminate.
    + injection Hrun as <- <-. split; [reflexivity|]. split.
      * destruct Hinv as [->|(l0 & -> & Hl)];
          [exact Logic.I | now apply below_all_but_last_app].
      * exists []. rewrite app_nil_r. split; [reflexivity|].
        intros _ Hb. apply Qlt_bool_iff in Hb. congruence.
Qed.

(** A loop left through its check has only run completed ticks. *)
Lemma while_loop_completed : forall fuel t0 t (w w' : World D),
  while_loop env fuel t0 t w = (Ok tt, w') ->
  forall w0, completed_ticks env w0 w -> completed_ticks env w0 w'.
Proof.
  induction fuel as [|fuel IH]; intros t0 t w w' Hrun w0 Hpast;
    [discriminate|].
  rewrite while_loop_step in Hrun.
  destruct (Qlt_bool t (time_stop (self w))).
  - destruct (tick env t0 w) as [[t'| e |] wt] eqn:Ht; try discriminate.
    apply (IH _ _ _ _ Hrun). exact (ticks_more env w0 w wt t0 t' Hpast Ht).
  - injection Hrun as <-. exact Hpast.
Qed.

(** [simulate] is the loop followed by the handler and the [finally]
    block. *)
Lemma simulate_out_of_fuel : forall fuel (w wl : World D),
  control_loop env fuel w = (OutOfFuel, wl) ->
  simulate env fuel w = (OutOfFuel, wl).
Proof.
  intros fuel w wl. unfold control_loop, simulate, bind, clock,
    try_finally, try_except.
  destruct (while_loop env fuel _ 0 _) as [rl w2].
  destruct rl; intros E; try discriminate. exact E.
Qed.

Ltac run_shutdown :=
  repeat (world_simpl;
          match goal with
          | |- context [match set_current 0 ?d with _ => _ end] =>
              destruct (set_current 0 d) eqn:?
          | |- context [match disable ?d with _ => _ end] =>
              destruct (disable d) eqn:?
          end).

(** The calls after the loop: those of [calls_after_loop], or those
    without the final [disable] when a zero current command raised. *)
Lemma simulate_calls : forall fuel (w wl : World D) left,
  control_loop env fuel w = (left, wl) ->
  left <> OutOfFuel ->
  exists r w',
    simulate env fuel w = (r, w') /\
    r <> OutOfFuel /\
    (calls w' = calls wl ++ calls_after_loop left \/
     ((exists d e, set_current 0 d = Fails e) /\
      calls w' = calls wl ++ removelast (calls_after_loop left))).
Proof.
  intros fuel w wl left.
  unfold control_loop, simulate, interrupt_handler, shutdown, bind, clock,
    try_finally, try_except, device_call.
  destruct (while_loop env fuel _ 0 _) as [rl w2].
  intros E Hleft. injection E as -> ->.
  destruct left as [[]| e |]; [| |congruence].
  2: destruct e; cbn [exn_eqb].
  all: run_shutdown.
  all: eexists; eexists; split; [reflexivity|]; split; [discriminate|].
  all: cbn [calls calls_after_loop removelast]; rewrite <- ?app_assoc.
  all: try (left; reflexivity).
  all: right; split; [eauto | reflexivity].
Qed.

Lemma control_loop_calls : forall fuel (w wl : World D) left,
  control_loop env fuel w = (left, wl) ->
  exists cmds,
    calls wl = calls w ++ cmds /\ forallb is_command cmds = true.
Proof.
  intros fuel w wl left. unfold control_loop, bind, clock.
  intros Hrun. apply while_loop_calls in Hrun. exact Hrun.
Qed.

End LoopFacts.

(** ** Leaving the loop: recorded timestamps (C10) *)

(** C10. With [time_stop > 0], a loop that is left through its check
    has executed at least one tick, so it has recorded at least one
    sample (timestamp and row); and however the loop is left, every
    recorded timestamp except possibly the last is below [time_stop]. *)
Theorem loop_exit_timestamps :
  forall (D : Type) (drv : GyemsDRC D) (env : Env) (dev : D)
         (cfg : DeviceParams.t) (fuel : nat) (w0 w : World D)
         (left : result unit),
    0 < DeviceParams.time_stop cfg ->
    Model_init dev cfg = (Ok tt, w0) ->
    control_loop env fuel w0 = (left, w) ->
    all_but_last_below (DeviceParams.time_stop cfg) (time (self w)) /\
    (left = Ok tt -> time (self w) <> [] /\ state (self w) <> []).
Proof.
  intros D drv env dev cfg fuel w0 w left Hpos Hinit Hrun.
  destruct (Model_init_ok dev cfg w0 Hinit) as (_ & _ & _ & Ht & _ & Hts & _).
  pose proof (init_aligned D drv dev cfg w0 Hinit) as Hal.
  unfold control_loop, bind, clock in Hrun.
  pose proof Hrun as Hloop.
  apply while_loop_time in Hrun; [|left; exact Ht].
  world_simpl. rewrite Hts in Hrun.
  destruct Hrun as (_ & Habl & sfx & Es & Hne).
  split; [exact Habl|].
  intros ->.
  assert (Htime : time (self w) <> []).
  { rewrite Es, Ht. simpl. apply Hne; [reflexivity | assumption]. }
  split; [exact Htime|].
  apply while_loop_completed with (w0 := mkWorld (self w0) (calls w0)
                                             (S (reads w0))) in Hloop;
    [|apply ticks_none].
  apply ticks_preserve_aligned in Hloop; [|exact Hal].
  destruct Hloop as (L1 & L2 & _).
  intros Hs. apply Htime. apply length_zero_iff_nil.
  rewrite L1, L2, Hs. reflexivity.
Qed.

Lemma loop_exit_timestamps_witness :
  all_but_last_below 10
    (time (self (snd (control_loop (quiet 3) 20
                        (snd (Model_init mock0 dev_param)))))) /\
  time (self (snd (control_loop (quiet 3) 20
                     (snd (Model_init mock0 dev_param))))) <> [].
Proof.
  destruct (loop_exit_timestamps Mock Mock_GyemsDRC (quiet 3) mock0 dev_param
              20 (snd (Model_init mock0 dev_param))
              (snd (control_loop (quiet 3) 20
                      (snd (Model_init mock0 dev_param))))
              (Ok tt)) as [Hbelow Hne].
  - reflexivity.
  - reflexivity.
  - vm_compute. reflexivity.
  - split; [exact Hbelow | exact (proj1 (Hne eq_refl))].
Defined.

(** ** The shutdown sequence (C2, C3) *)

Lemma mock_zero_command_safe : zero_command_safe Mock.
Proof. intros d; eexists; reflexivity. Defined.

(** C2, as stated, fails: on a bus that stops carrying commands, the
    third tick raises, the zero current command of the [finally] block
    raises as well, and [disable] is never called. *)
Lemma failing_bus_is_never_disabled :
  fst (simulate (quiet 3) 20 (snd (Model_init (mkFlaky 2) dev_param)))
  = Raise DeviceError /\
  calls (snd (simulate (quiet 3) 20 (snd (Model_init (mkFlaky 2) dev_param))))
  = [CSetDegrees; CSetCurrentLimit 200; CEnable;
     CSetCurrent 270; CSetCurrent 270; CSetCurrent 270; CSetCurrent 0] /\
  count is_disable
    (calls (snd (simulate (quiet 3) 20
                   (snd (Model_init (mkFlaky 2) dev_param))))) = 0%nat.
Proof. repeat split; vm_compute; reflexivity. Qed.

Lemma commands_no_disable : forall cmds,
  forallb is_command cmds = true -> count is_disable cmds = 0%nat.
Proof.
  unfold count. induction cmds as [|c cmds IH]; intros Hc; [reflexivity|].
  simpl in Hc. apply andb_true_iff in Hc as [Hc Hcs].
  destruct c; try discriminate. simpl. auto.
Qed.

Lemma try_block_calls :
  forall (D : Type) (drv : GyemsDRC D) (env : Env) (fuel : nat)
         (w wb : World D) (rb : result unit),
    try_block env fuel w = (rb, wb) ->
    exists earlier,
      calls wb = calls w ++ earlier /\
      forallb is_command earlier = true.
Proof.
  intros D drv env fuel w wb rb.
  unfold try_block, bind, clock, try_except, interrupt_handler, device_call.
  destruct (while_loop env fuel _ 0 _) as [rl wl] eqn:Hloop.
  destruct (while_loop_calls env _ _ _ _ _ _ Hloop) as (cmds & Ec & Fc).
  cbn in Ec.
  destruct rl as [u| e |].
  - intros E. injection E as <- <-. exists cmds. now split.
  - destruct e; cbn [exn_eqb];
      try (intros E; injection E as <- <-; exists cmds; now split).
    destruct (set_current 0 (device (self wl)));
      intros E; injection E as <- <-; cbn [calls];
      exists (cmds ++ [CSetCurrent 0]);
      (split; [now rewrite Ec, <- app_assoc
              | rewrite forallb_app, Fc; reflexivity]).
  - intros E. injection E as <- <-. exists cmds. now split.
Qed.

(** C2, amended. On every termination of [simulate] - the loop
    completed, a KeyboardInterrupt arrived, or a call in a tick raised -
    the [finally] block sends the zero current command; when that
    command returns, [disable] is called next, as the last driver call
    before control returns to the caller; when that command raises,
    [simulate] raises the same exception and [disable] is not called.
    No [disable] is called before the [finally] block. *)
Theorem shutdown_sequence_runs :
  forall (D : Type) (drv : GyemsDRC D) (env : Env) (fuel : nat)
         (w w' : World D) (r : result unit),
    simulate env fuel w = (r, w') ->
    r <> OutOfFuel ->
    exists rb wb earlier,
      try_block env fuel w = (rb, wb) /\
      calls wb = calls w ++ earlier /\
      count is_disable earlier = 0%nat /\
      ((exists d1,
          set_current 0 (device (self wb)) = Done d1 /\
          calls w' = calls w ++ earlier ++ [CSetCurrent 0; CDisable]) \/
       (exists e,
          set_current 0 (device (self wb)) = Fails e /\
          r = Raise e /\
          calls w' = calls w ++ earlier ++ [CSetCurrent 0] /\
          count is_disable (earlier ++ [CSetCurrent 0]) = 0%nat)).
Proof.
  intros D drv env fuel w w' r Hsim Hr.
  destruct (try_block env fuel w) as [rb wb] eqn:Htry.
  destruct (try_block_calls D drv env fuel w wb rb Htry)
    as (earlier & Ec & Fc).
  pose proof (commands_no_disable earlier Fc) as Hnone.
  exists rb, wb, earlier.
  split; [reflexivity|]. split; [exact Ec|]. split; [exact Hnone|].
  revert Hsim. unfold try_block in Htry.
  unfold simulate, bind, clock, try_finally in *.
  rewrite Htry. unfold shutdown, bind, device_call.
  destruct rb as [u| eb |].
  3: { intros E. injection E as <- _. congruence. }
  all: destruct (set_current 0 (device (self wb))) as [d1|e1] eqn:Hz;
    world_simpl.
  all: try (destruct (disable d1); world_simpl).
  all: intros E; injection E as <- <-; cbn [calls]; rewrite Ec.
  all: try (left; exists d1; split; [reflexivity|];
            rewrite <- !app_assoc; reflexivity).
  all: right; exists e1; split; [reflexivity|]; split; [reflexivity|];
    split; [rewrite <- !app_assoc; reflexivity|].
  all: unfold count in *; rewrite filter_app, length_app, Hnone;
    reflexivity.
Qed.

Lemma shutdown_sequence_runs_witness :
  fst (simulate (quiet 3) 20 (snd (Model_init mock0 hot_param)))
  = Raise DeviceError /\
  exists earlier,
    calls (snd (simulate (quiet 3) 20 (snd (Model_init mock0 hot_param))))
    = calls (snd (Model_init mock0 hot_param))
      ++ earlier ++ [CSetCurrent 0; CDisable].
Proof.
  split; [vm_compute; reflexivity|].
  destruct (shutdown_sequence_runs Mock Mock_GyemsDRC (quiet 3) 20
              (snd (Model_init mock0 hot_param))
              (snd (simulate (quiet 3) 20 (snd (Model_init mock0 hot_param))))
              (Raise DeviceError))
    as (rb & wb & earlier & _ & _ & _ & [(d1 & _ & Hc)|(e & Hf & _)]).
  - vm_compute. reflexivity.
  - discriminate.
  - exists earlier. exact Hc.
  - cbn in Hf. discriminate Hf.
Defined.

(** C3, as stated, fails: in a run interrupted from the keyboard the
    driver receives two zero current commands, one from the handler and
    one from the [finally] block. *)
Lemma interrupted_run_sends_zero_twice :
  fst (simulate (interrupted 3 1 BeforeCommand) 20
         (snd (Model_init mock0 dev_param))) = Ok tt /\
  calls (snd (simulate (interrupted 3 1 BeforeCommand) 20
                (snd (Model_init mock0 dev_param))))
  = [CSetDegrees; CSetCurrentLimit 200; CEnable;
     CSetCurrent 0; CSetCurrent 0; CDisable] /\
  count is_zero_command
    (calls (snd (simulate (interrupted 3 1 BeforeCommand) 20
                   (snd (Model_init mock0 dev_param))))) = 2%nat.
Proof. repeat split; vm_compute; reflexivity. Qed.

(** C3, amended. In every run that ends on a driver whose zero current
    command returns, [disable] is called exactly once, as the last call;
    the loop itself only sends current commands; and the zero current
    command of the shutdown is sent once when the loop was left through
    its check or by a fault, and twice when it was left by a
    KeyboardInterrupt (handler, then [finally] block). *)
Theorem shutdown_calls_by_exit :
  forall (D : Type) (drv : GyemsDRC D) (env : Env) (fuel : nat)
         (w wl : World D) (left : result unit),
    zero_command_safe D ->
    control_loop env fuel w = (left, wl) ->
    left <> OutOfFuel ->
    exists r w' cmds,
      simulate env fuel w = (r, w') /\
      calls wl = calls w ++ cmds /\
      forallb is_command cmds = true /\
      calls w' = calls w ++ cmds ++ calls_after_loop left /\
      count is_disable (cmds ++ calls_after_loop left) = 1%nat /\
      count is_zero_command (calls_after_loop left)
      = match left with Raise KeyboardInterrupt => 2%nat | _ => 1%nat end.
Proof.
  intros D drv env fuel w wl left Hsafe Hloop Hleft.
  destruct (control_loop_calls env fuel w wl left Hloop) as (cmds & Ec & Fc).
  destruct (simulate_calls env fuel w wl left Hloop Hleft)
    as (r & w' & Es & _ & Hcalls).
  assert (Hc : calls w' = calls wl ++ calls_after_loop left).
  { destruct Hcalls as [Hc|[(d & e & Hfail) _]]; [exact Hc|].
    destruct (Hsafe d) as [d' Hd]. congruence. }
  exists r, w', cmds.
  split; [exact Es|]. split; [exact Ec|]. split; [exact Fc|].
  split; [now rewrite Hc, Ec, <- app_assoc|].
  assert (Hnone : count is_disable cmds = 0%nat).
  { clear - Fc. unfold count. induction cmds as [|c cmds IH]; [reflexivity|].
    simpl in Fc. apply andb_true_iff in Fc as [Hc Fc].
    destruct c; try discriminate. simpl. auto. }
  split.
  - unfold count in *. rewrite filter_app, length_app, Hnone.
    destruct left as [u|[]|]; reflexivity.
  - destruct left as [u|[]|]; reflexivity.
Qed.

Lemma shutdown_calls_by_exit_witness :
  exists r w' cmds,
    simulate (interrupted 3 2 AfterStateAppend) 20
      (snd (Model_init mock0 dev_param)) = (r, w') /\
    calls w' = calls (snd (Model_init mock0 dev_param))
               ++ cmds ++ [CSetCurrent 0; CSetCurrent 0; CDisable] /\
    count is_disable (cmds ++ [CSetCurrent 0; CSetCurrent 0; CDisable])
    = 1%nat.
Proof.
  destruct (shutdown_calls_by_exit Mock Mock_GyemsDRC
              (interrupted 3 2 AfterStateAppend) 20
              (snd (Model_init mock0 dev_param))
              (snd (control_loop (interrupted 3 2 AfterStateAppend) 20
                      (snd (Model_init mock0 dev_param))))
              (Raise KeyboardInterrupt))
    as (r & w' & cmds & Es & _ & _ & Ec & Hd & _).
  - exact mock_zero_command_safe.
  - vm_compute. reflexivity.
  - discriminate.
  - exists r, w', cmds. split; [exact Es|]. split; [exact Ec | exact Hd].
Defined.

(** ** Construction and configuration (C5) *)

(** C5, as stated, fails: with [time_stop = 0] the construction succeeds
    and enables the driver, and [simulate] then runs no tick and the
    shutdown sequence. *)
Lemma invalid_time_stop_is_accepted :
  DeviceParams.time_stop bad_param <= 0 /\
  fst (Model_init mock0 bad_param) = Ok tt /\
  m_enabled (device (self (snd (Model_init mock0 bad_param)))) = true /\
  calls (snd (Model_init mock0 bad_param))
  = [CSetDegrees; CSetCurrentLimit 200; CEnable] /\
  fst (simulate (quiet 1) 5 (snd (Model_init mock0 bad_param))) = Ok tt /\
  calls (snd (simulate (quiet 1) 5 (snd (Model_init mock0 bad_param))))
  = [CSetDegrees; CSetCurrentLimit 200; CEnable; CSetCurrent 0; CDisable].
Proof.
  split; [vm_compute; discriminate|].
  repeat split; vm_compute; reflexivity.
Qed.

(** C5, amended. The controller checks no parameter. For every
    configuration, when the three driver calls of [setup] return, the
    construction succeeds having called [set_degrees], assigned
    [current_limit] and enabled the driver, in this order; and with
    [time_stop <= 0], when the two shutdown commands return, [simulate]
    runs no tick, sends the zero current command, disables the driver
    and records nothing. *)
Theorem construction_checks_nothing :
  forall (D : Type) (drv : GyemsDRC D) (env : Env) (fuel : nat)
         (dev d1 d2 d3 d4 d5 : D) (cfg : DeviceParams.t),
    set_degrees dev = Done d1 ->
    set_current_limit (DeviceParams.current_limit cfg) d1 = Done d2 ->
    enable d2 = Done d3 ->
    set_current 0 d3 = Done d4 ->
    disable d4 = Done d5 ->
    exists w0,
      Model_init dev cfg = (Ok tt, w0) /\
      device (self w0) = d3 /\
      calls w0 = [CSetDegrees;
                  CSetCurrentLimit (DeviceParams.current_limit cfg);
                  CEnable] /\
      (DeviceParams.time_stop cfg <= 0 ->
       exists w1,
         simulate env (S fuel) w0 = (Ok tt, w1) /\
         calls w1 = calls w0 ++ [CSetCurrent 0; CDisable] /\
         device (self w1) = d5 /\
         state (self w1) = [] /\ time (self w1) = []).
Proof.
  intros D drv env fuel dev d1 d2 d3 d4 d5 cfg H1 H2 H3 H4 H5.
  eexists. split.
  - unfold Model_init, setup, bind, modify, device_call. world_simpl.
    rewrite H1. world_simpl. rewrite H2. world_simpl. rewrite H3.
    world_simpl. reflexivity.
  - cbn. split; [reflexivity|]. split; [reflexivity|].
    intros Hstop.
    assert (Hlt : Qlt_bool 0 (DeviceParams.time_stop cfg) = false).
    { destruct (Qlt_bool 0 (DeviceParams.time_stop cfg)) eqn:E;
        [|reflexivity].
      apply Qlt_bool_iff in E. lra. }
    unfold simulate, shutdown, try_finally, try_except, clock.
    cbn [while_loop]. unfold bind, gets, ret, device_call. world_simpl.
    rewrite Hlt. world_simpl. rewrite H4. world_simpl. rewrite H5.
    eexists. split; [reflexivity|]. cbn.
    repeat split; reflexivity.
Qed.

Lemma construction_checks_nothing_witness :
  exists w0,
    Model_init mock0 (DeviceParams.mk 3 3 90 0 (-5) (-1)) = (Ok tt, w0) /\
    m_enabled (device (self w0)) = true /\
    exists w1,
      simulate (quiet 1) 1 w0 = (Ok tt, w1) /\
      calls w1 = calls w0 ++ [CSetCurrent 0; CDisable].
Proof.
  destruct (construction_checks_nothing Mock Mock_GyemsDRC (quiet 1) 0
              mock0 mock0 (mkMock 0 0 0 (-5) false) (mkMock 0 0 0 (-5) true)
              (mkMock (0 + 0 / 10) (0 / 10) 0 (-5) true)
              (mkMock (0 + 0 / 10) (0 / 10) 0 (-5) false)
              (DeviceParams.mk 3 3 90 0 (-5) (-1)))
    as (w0 & Hinit & Hdev & _ & Hsim); try reflexivity.
  exists w0. split; [exact Hinit|]. split; [rewrite Hdev; reflexivity|].
  destruct Hsim as (w1 & Hs & Hc & _).
  - vm_compute. discriminate.
  - exists w1. split; [exact Hs | exact Hc].
Defined.

(** ** Termination and duration of the loop (C8) *)

Lemma rotor_healthy : healthy Rotor.
Proof. repeat split; intros; eexists; reflexivity. Defined.

Lemma Qlt_bool_false : forall x y, y <= x -> Qlt_bool x y = false.
Proof.
  intros x y Hle. destruct (Qlt_bool x y) eqn:E; [|reflexivity].
  apply Qlt_bool_iff in E. lra.
Qed.

(** The first clock call at which the elapsed time reaches [span]. *)
Lemma first_reach : forall (c : nat -> Q) (span : Q) (n : nat),
  (forall i, (i < n)%nat -> c i - c 0%nat < span) \/
  exists k, (k < n)%nat /\ span <= c k - c 0%nat /\
            forall i, (i < k)%nat -> c i - c 0%nat < span.
Proof.
  induction n as [|n [IH|IH]].
  - left. intros i Hi. lia.
  - destruct (Qlt_le_dec (c n - c 0%nat) span) as [Hlt|Hle].
    + left. intros i Hi.
      destruct (Nat.eq_dec i n) as [->|]; [assumption | apply IH; lia].
    + right. exists n. split; [lia|]. split; assumption.
  - right. destruct IH as (k & Hk & Hr & Hb). exists k.
    split; [lia|]. split; assumption.
Qed.

Section Termination.

Context {D : Type} `{GyemsDRC D}.
Variable env : Env.
Hypothesis Hhealthy : healthy D.
Hypothesis Hquiet : uninterrupted env.

Lemma tick_healthy : forall t0 (w : World D),
  exists w',
    tick env t0 w = (Ok (perf_counter env (reads w) - t0), w') /\
    reads w' = S (reads w) /\
    time_stop (self w') = time_stop (self w) /\
    time (self w') = time (self w) ++ [perf_counter env (reads w) - t0].
Proof.
  intros t0 w. destruct Hhealthy as (Ha & Hs & Hc & Hcmd).
  destruct (Ha (device (self w))) as [q Hq].
  destruct (Hs (device (self w))) as [dq Hdq].
  destruct (Hcmd (kp (self w) * (q_def (self w) - q)
                  + kd (self w) * (initial_velocity (self w) - dq))
                 (device (self w))) as [d' Hset].
  destruct (Hc d') as [i Hi].
  eexists. split.
  - apply (tick_run env t0 w q dq i d'); auto.
  - cbn. repeat split; reflexivity.
Qed.

Variables (t0 span : Q) (k : nat).
Hypothesis Hbelow :
  forall i, (1 <= i < k)%nat -> perf_counter env i - t0 < span.
Hypothesis Hreach : span <= perf_counter env k - t0.

(** From clock call [j] on, the loop runs ticks [j .. k] and leaves
    through its check with the reading of call [k]. *)
Lemma while_loop_reaches : forall m j (w : World D) t,
  (j + m = k)%nat -> (1 <= j)%nat ->
  reads w = j ->
  time_stop (self w) = span ->
  t < span ->
  exists w',
    while_loop env (S (S m)) t0 t w = (Ok tt, w') /\
    reads w' = S k /\
    exists past, time (self w') = past ++ [perf_counter env k - t0].
Proof.
  induction m as [|m IH]; intros j w t Hjm Hj Hr Hts Ht;
    rewrite while_loop_step, Hts;
    rewrite (proj2 (Qlt_bool_iff t span) Ht);
    destruct (tick_healthy t0 w) as (w1 & -> & Hr1 & Hts1 & Et).
  - rewrite while_loop_step, Hts1, Hts.
    assert (j = k) as Hjk by lia. rewrite Hr, Hjk in *.
    rewrite (Qlt_bool_false _ _ Hreach).
    eexists. split; [reflexivity|]. split; [exact Hr1|].
    eexists. exact Et.
  - apply (IH (S j)).
    + lia.
    + lia.
    + congruence.
    + congruence.
    + rewrite Hr. apply Hbelow. lia.
Qed.

End Termination.

Lemma steady_latency : tick_latency_at_most (quiet 3) 3.
Proof.
  intros k. unfold quiet, steady_clock. cbn [perf_counter].
  rewrite Nat2Z.inj_succ, <- Z.add_1_r, inject_Z_plus.
  ring_simplify. apply Qle_refl.
Defined.

Lemma steady_clock_monotone : monotone_clock (quiet 3).
Proof.
  intros k. unfold quiet, steady_clock. cbn [perf_counter].
  rewrite Nat2Z.inj_succ, <- Z.add_1_r, inject_Z_plus.
  ring_simplify. lra.
Defined.

(** C8, as stated, fails: with [time_stop = 10] and a clock that
    advances by exactly 3 from one reading to the next (so that the tick
    latency is at most 3), on a driver that never raises, the loop is
    left when the clock reads 15: its wall-clock duration is not below
    [time_stop + 3].  The tick that read the elapsed time 12 still ran
    its body before the check. *)
Lemma loop_outlasts_time_stop_plus_latency :
  healthy Rotor /\
  uninterrupted (quiet 3) /\
  tick_latency_at_most (quiet 3) 3 /\
  0 < DeviceParams.time_stop dev_param /\
  exists w,
    control_loop (quiet 3) 20 (snd (Model_init rotor0 dev_param))
    = (Ok tt, w) /\
    time (self w) = [3; 6; 9; 12] /\
    loop_duration (quiet 3) (snd (Model_init rotor0 dev_param)) w == 15 /\
    ~ loop_duration (quiet 3) (snd (Model_init rotor0 dev_param)) w
      < DeviceParams.time_stop dev_param + 3.
Proof.
  split; [exact rotor_healthy|]. split; [intro k; reflexivity|].
  split; [exact steady_latency|]. split; [reflexivity|].
  eexists. split; [vm_compute; reflexivity|].
  split; [reflexivity|]. split; [vm_compute; reflexivity|].
  intro Hlt. vm_compute in Hlt. discriminate.
Qed.

(** C8, amended. With [time_stop > 0], a driver whose calls all return,
    no interrupt, and a clock that never runs backwards, advances by at
    most [L] from one reading to the next and eventually gets
    [time_stop] past its first reading, the loop ends, and only through
    a check made after a tick whose elapsed time [T], read at the start
    of that tick and recorded last, has reached [time_stop]:
    [time_stop <= T < time_stop + L].  The wall-clock duration of the
    loop includes the body of that last tick: it is at least [T] and
    below [time_stop + 2 * L]. *)
Theorem control_loop_terminates_within_two_latencies :
  forall (D : Type) (drv : GyemsDRC D) (env : Env) (dev : D)
         (cfg : DeviceParams.t) (w0 : World D) (L : Q),
    healthy D ->
    uninterrupted env ->
    0 < DeviceParams.time_stop cfg ->
    Model_init dev cfg = (Ok tt, w0) ->
    tick_latency_at_most env L ->
    monotone_clock env ->
    clock_reaches env (DeviceParams.time_stop cfg) ->
    exists fuel w past T,
      control_loop env fuel w0 = (Ok tt, w) /\
      time (self w) = past ++ [T] /\
      DeviceParams.time_stop cfg <= T /\
      T < DeviceParams.time_stop cfg + L /\
      T <= loop_duration env w0 w /\
      loop_duration env w0 w < DeviceParams.time_stop cfg + 2 * L.
Proof.
  intros D drv env dev cfg w0 L Hh Hq Hpos Hinit Hlat Hmono [k0 Hk0].
  destruct (Model_init_ok dev cfg w0 Hinit)
    as (Hr & _ & _ & _ & _ & Hts & _).
  destruct (first_reach (perf_counter env) (DeviceParams.time_stop cfg)
              (S k0)) as [Hnone|(k & _ & Hreach & Hbelow)].
  { specialize (Hnone k0 (Nat.lt_succ_diag_r k0)). lra. }
  assert (Hk : (1 <= k)%nat).
  { destruct k; [|lia]. exfalso. lra. }
  destruct (while_loop_reaches env Hh Hq (perf_counter env 0%nat)
              (DeviceParams.time_stop cfg) k
              (fun i Hi => Hbelow i (proj2 Hi)) Hreach
              (k - 1)%nat 1%nat
              (mkWorld (self w0) (calls w0) (S (reads w0))) 0)
    as (w & Hrun & Hreads & past & Et).
  { lia. }
  { lia. }
  { cbn. rewrite Hr. reflexivity. }
  { exact Hts. }
  { exact Hpos. }
  exists (S (S (k - 1))), w, past,
         (perf_counter env k - perf_counter env 0%nat).
  split.
  - unfold control_loop, bind, clock. rewrite Hr in Hrun |- *. exact Hrun.
  - split; [exact Et|]. split; [exact Hreach|].
    pose proof (Hbelow (k - 1)%nat ltac:(lia)) as Hprev.
    pose proof (Hlat (k - 1)%nat) as Hgap.
    replace (S (k - 1)) with k in Hgap by lia.
    pose proof (Hlat k) as Hlast.
    pose proof (Hmono k) as Hup.
    unfold loop_duration. rewrite Hreads, Hr.
    repeat split; lra.
Qed.

Lemma control_loop_terminates_within_two_latencies_witness :
  exists fuel w past T,
    control_loop (quiet 3) fuel (snd (Model_init rotor0 dev_param))
    = (Ok tt, w) /\
    time (self w) = past ++ [T] /\ 10 <= T /\ T < 10 + 3 /\
    T <= loop_duration (quiet 3) (snd (Model_init rotor0 dev_param)) w /\
    loop_duration (quiet 3) (snd (Model_init rotor0 dev_param)) w
    < 10 + 2 * 3.
Proof.
  apply (control_loop_terminates_within_two_latencies Rotor Rotor_GyemsDRC
           (quiet 3) rotor0 dev_param (snd (Model_init rotor0 dev_param)) 3).
  - exact rotor_healthy.
  - intro k. reflexivity.
  - reflexivity.
  - reflexivity.
  - exact steady_latency.
  - exact steady_clock_monotone.
  - exists 4%nat. vm_compute. discriminate.
Defined.

(** * Further properties of the controller *)

(** ** Edge behaviour of one tick *)

(** X1. When the driver state lacks the key ['angle'] or ['speed'], the
    tick raises KeyError having only read the clock: no driver call is
    made and nothing is recorded. *)
Theorem tick_missing_key :
  forall (D : Type) (drv : GyemsDRC D) (env : Env) (t0 : Q) (w : World D),
    dev_state (device (self w)) "angle" = None \/
    dev_state (device (self w)) "speed" = None ->
    tick env t0 w
    = (Raise KeyError, mkWorld (self w) (calls w) (S (reads w))).
Proof.
  intros D drv env t0 w Hmiss.
  unfold tick, pd_regulator, bind, read_state, clock. world_simpl.
  destruct (dev_state (device (self w)) "angle") as [q|] eqn:Hq;
    world_simpl; [|reflexivity].
  destruct Hmiss as [Hm|Hm]; [discriminate|]. rewrite Hm. reflexivity.
Qed.

Lemma tick_missing_key_witness :
  tick (quiet 3) 0 (mkWorld (mkModel (mkBare 5) 3 3 0 90 10 [] [] []) [] 1)
  = (Raise KeyError,
     mkWorld (mkModel (mkBare 5) 3 3 0 90 10 [] [] []) [] 2).
Proof.
  apply (tick_missing_key Bare Bare_GyemsDRC (quiet 3) 0
           (mkWorld (mkModel (mkBare 5) 3 3 0 90 10 [] [] []) [] 1)).
  right. reflexivity.
Defined.

(** X2. When [set_current(u)] raises, the tick raises the same
    exception: the command was attempted, the driver state is kept, and
    no row, error or timestamp is appended. *)
Theorem tick_command_fails :
  forall (D : Type) (drv : GyemsDRC D) (env : Env) (t0 : Q) (w : World D)
         (q dq : Q) (e : exn),
    dev_state (device (self w)) "angle" = Some q ->
    dev_state (device (self w)) "speed" = Some dq ->
    sigint env (reads w) = None ->
    set_current (kp (self w) * (q_def (self w) - q)
                 + kd (self w) * (initial_velocity (self w) - dq))
                (device (self w)) = Fails e ->
    tick env t0 w
    = (Raise e,
       mkWorld (self w)
         (calls w
          ++ [CSetCurrent (kp (self w) * (q_def (self w) - q)
                           + kd (self w) * (initial_velocity (self w) - dq))])
         (S (reads w))).
Proof.
  intros D drv env t0 w q dq e Hq Hdq Hs Hset.
  unfold tick, pd_regulator, bind, ret, gets, modify, read_state, clock,
    checkpoint, device_call.
  repeat (world_simpl;
          first [rewrite Hq | rewrite Hdq | rewrite Hs | rewrite Hset]).
  reflexivity.
Qed.

Lemma tick_command_fails_witness :
  exists w',
    tick (quiet 3) 0 (snd (Model_init mock0 hot_param))
    = (Raise DeviceError, w') /\
    state (self w') = [] /\ time (self w') = [] /\
    calls w' = calls (snd (Model_init mock0 hot_param))
               ++ [CSetCurrent (100 * (90 - 0) + 3 * (0 - 0))].
Proof.
  eexists. split.
  - apply (tick_command_fails Mock Mock_GyemsDRC (quiet 3) 0
             (snd (Model_init mock0 hot_param)) 0 0 DeviceError);
      reflexivity.
  - repeat split; reflexivity.
Defined.

(** X3. A KeyboardInterrupt that arrives between [state.append] and
    [error.append] leaves the row in [state] and nothing in [error] and
    [time]: lists that were aligned are no longer of one length when the
    loop is left. *)
Theorem tick_interrupted_after_row :
  forall (D : Type) (drv : GyemsDRC D) (env : Env) (t0 : Q) (w : World D)
         (q dq i : Q) (d' : D),
    dev_state (device (self w)) "angle" = Some q ->
    dev_state (device (self w)) "speed" = Some dq ->
    set_current (kp (self w) * (q_def (self w) - q)
                 + kd (self w) * (initial_velocity (self w) - dq))
                (device (self w)) = Done d' ->
    dev_state d' "current" = Some i ->
    sigint env (reads w) = Some AfterStateAppend ->
    aligned (self w) ->
    exists w',
      tick env t0 w = (Raise KeyboardInterrupt, w') /\
      state (self w')
      = state (self w)
        ++ [mkRow q dq i
              (kp (self w) * (q_def (self w) - q)
               + kd (self w) * (initial_velocity (self w) - dq))] /\
      error (self w') = error (self w) /\
      time (self w') = time (self w) /\
      List.length (state (self w')) = S (List.length (time (self w'))) /\
      ~ aligned (self w').
Proof.
  intros D drv env t0 w q dq i d' Hq Hdq Hset Hi Hs (L1 & L2 & _).
  eexists. split.
  - unfold tick, pd_regulator, bind, ret, gets, modify, read_state, clock,
      checkpoint, device_call.
    repeat (world_simpl;
            first [rewrite Hq | rewrite Hdq | rewrite Hs | rewrite Hset
                  | rewrite Hi]; cbn [point_eqb]).
    reflexivity.
  - cbn. repeat split; try reflexivity.
    + rewrite length_app. simpl. lia.
    + intros (A1 & A2 & _). cbn in A1, A2. rewrite length_app in A2.
      simpl in A2. lia.
Qed.

Lemma tick_interrupted_after_row_witness :
  exists w',
    tick (interrupted 3 0 AfterStateAppend) 0
         (snd (Model_init mock0 dev_param))
    = (Raise KeyboardInterrupt, w') /\
    List.length (state (self w')) = 1%nat /\
    time (self w') = [].
Proof.
  destruct (tick_interrupted_after_row Mock Mock_GyemsDRC
              (interrupted 3 0 AfterStateAppend) 0
              (snd (Model_init mock0 dev_param)) 0 0
              (3 * (90 - 0) + 3 * (0 - 0))
              (mkMock (0 + (3 * (90 - 0) + 3 * (0 - 0)) / 10)
                      ((3 * (90 - 0) + 3 * (0 - 0)) / 10)
                      (3 * (90 - 0) + 3 * (0 - 0)) 200 true))
    as (w' & Ht & Hs & _ & Htime & _); try reflexivity.
  - apply (init_aligned Mock Mock_GyemsDRC mock0 dev_param). reflexivity.
  - exists w'. split; [exact Ht|]. split; [rewrite Hs; reflexivity|].
    rewrite Htime. reflexivity.
Defined.

(** ** Construction that fails *)

(** X4. The constructor makes the setup calls in the order
    [set_degrees], [current_limit = ...], [enable] and stops at the
    first one that raises: it then raises the same exception, and the
    calls made are those up to and including the failing one. *)
Theorem Model_init_stops_at_first_failure :
  forall (D : Type) (drv : GyemsDRC D) (dev : D) (cfg : DeviceParams.t)
         (e : exn) (w : World D),
    Model_init dev cfg = (Raise e, w) ->
    (calls w = [CSetDegrees] /\ set_degrees dev = Fails e) \/
    (exists d1,
       set_degrees dev = Done d1 /\
       calls w = [CSetDegrees;
                  CSetCurrentLimit (DeviceParams.current_limit cfg)] /\
       set_current_limit (DeviceParams.current_limit cfg) d1 = Fails e) \/
    (exists d1 d2,
       set_degrees dev = Done d1 /\
       set_current_limit (DeviceParams.current_limit cfg) d1 = Done d2 /\
       calls w = [CSetDegrees;
                  CSetCurrentLimit (DeviceParams.current_limit cfg);
                  CEnable] /\
       enable d2 = Fails e).
Proof.
  intros D drv dev cfg e w.
  unfold Model_init, setup, bind, modify, device_call. world_simpl.
  destruct (set_degrees dev) as [d1|e1] eqn:H1; world_simpl.
  - destruct (set_current_limit _ d1) as [d2|e2] eqn:H2; world_simpl.
    + destruct (enable d2) as [d3|e3] eqn:H3; world_simpl.
      * discriminate.
      * intros E. injection E as <- <-. right. right.
        exists d1, d2. repeat split; auto.
    + intros E. injection E as <- <-. right. left.
      exists d1. repeat split; auto.
  - intros E. injection E as <- <-. left. split; reflexivity.
Qed.

Lemma Model_init_stops_at_first_failure_witness :
  calls (snd (Model_init (mkBare 5) dev_param))
  = [CSetDegrees; CSetCurrentLimit 200; CEnable] /\
  fst (Model_init (mkBare 5) dev_param) = Raise DeviceError.
Proof.
  destruct (Model_init_stops_at_first_failure Bare Bare_GyemsDRC (mkBare 5)
              dev_param DeviceError (snd (Model_init (mkBare 5) dev_param)))
    as [[Hc Hf]|[(d1 & _ & _ & Hf)|(d1 & d2 & _ & _ & Hc & _)]].
  - reflexivity.
  - discriminate Hf.
  - discriminate Hf.
  - split; [exact Hc | reflexivity].
Defined.

(** ** What a whole run records *)

Lemma nth_map_seq : forall (f : nat -> Q) a n i,
  (i < n)%nat -> nth i (map f (seq a n)) 0 = f (a + i)%nat.
Proof.
  intros f a n. revert a.
  induction n as [|n IH]; intros a i Hi; [lia|].
  destruct i as [|i]; simpl.
  - now rewrite Nat.add_0_r.
  - rewrite IH by lia. f_equal. lia.
Qed.

Lemma monotone_clock_le : forall env i j,
  monotone_clock env -> (i <= j)%nat ->
  perf_counter env i <= perf_counter env j.
Proof.
  intros env i j Hm Hij. induction Hij as [|j _ IH]; [apply Qle_refl|].
  eapply Qle_trans; [exact IH | apply Hm].
Qed.

Section RunFacts.

Context {D : Type} `{GyemsDRC D}.
Variable env : Env.

(** Everything a completed tick does, in one place. *)
Lemma tick_completed : forall t0 (w : World D) t w',
  tick env t0 w = (Ok t, w') ->
  kp (self w') = kp (self w) /\
  kd (self w') = kd (self w) /\
  initial_velocity (self w') = initial_velocity (self w) /\
  exists row,
    state (self w') = state (self w) ++ [row] /\
    error (self w') = error (self w) ++ [q_def (self w) - row_q row] /\
    calls w' = calls w ++ [CSetCurrent (row_u row)] /\
    row_u row
    = kp (self w) * (q_def (self w) - row_q row)
      + kd (self w) * (initial_velocity (self w) - row_dq row).
Proof.
  intros t0 w t w' Ht. run_tick.
  all: try discriminate.
  all: cbn; repeat split; eexists (mkRow _ _ _ _); repeat split; reflexivity.
Qed.

Lemma while_loop_timestamps : forall fuel t0 t (w : World D) r w' a n,
  time (self w) = map (fun k => perf_counter env k - t0) (seq a n) ->
  reads w = (a + n)%nat ->
  while_loop env fuel t0 t w = (r, w') ->
  exists n',
    time (self w') = map (fun k => perf_counter env k - t0) (seq a n').
Proof.
  induction fuel as [|fuel IH]; intros t0 t w r w' a n Ht Hr Hrun.
  - injection Hrun as <- <-. eauto.
  - rewrite while_loop_step in Hrun.
    destruct (Qlt_bool t (time_stop (self w))).
    + destruct (tick env t0 w) as [rt wt] eqn:Htick.
      destruct (tick_frame env t0 w rt wt Htick) as (Hr' & _).
      destruct (tick_time env t0 w rt wt Htick) as (Hcases & Hok).
      assert (Hnext : time (self w) ++ [perf_counter env (reads w) - t0]
                      = map (fun k => perf_counter env k - t0)
                            (seq a (S n))).
      { rewrite seq_S, map_app, Ht, Hr. reflexivity. }
      destruct rt as [t'| e |].
      * destruct (Hok t' eq_refl) as (-> & Et).
        apply (IH _ _ _ _ _ a (S n)) in Hrun; [exact Hrun | |].
        -- rewrite Et. exact Hnext.
        -- rewrite Hr', Hr. lia.
      * injection Hrun as <- <-.
        destruct Hcases as [-> | ->]; [eauto|].
        exists (S n). exact Hnext.
      * injection Hrun as <- <-.
        destruct Hcases as [-> | ->]; [eauto|].
        exists (S n). exact Hnext.
    + injection Hrun as <- <-. eauto.
Qed.

Lemma while_loop_commands : forall fuel t0 t (w w' : World D),
  while_loop env fuel t0 t w = (Ok tt, w') ->
  exists rows,
    state (self w') = state (self w) ++ rows /\
    calls w' = calls w ++ map (fun r => CSetCurrent (row_u r)) rows.
Proof.
  induction fuel as [|fuel IH]; intros t0 t w w' Hrun; [discriminate|].
  rewrite while_loop_step in Hrun.
  destruct (Qlt_bool t (time_stop (self w))).
  - destruct (tick env t0 w) as [[t'| e |] wt] eqn:Htick; try discriminate.
    destruct (tick_completed t0 w t' wt Htick)
      as (_ & _ & _ & row & Es & _ & Ec & _).
    destruct (IH _ _ _ _ Hrun) as (rows & Es' & Ec').
    exists (row :: rows). rewrite Es', Ec', Es, Ec, <- !app_assoc.
    split; reflexivity.
  - injection Hrun as <-. exists []. now rewrite !app_nil_r.
Qed.

End RunFacts.

(** X5. The timestamps recorded by a run are the successive clock
    readings of its ticks, each minus the reading taken before the loop;
    with a clock that never runs backwards they are non-decreasing. *)
Theorem recorded_timestamps_are_clock_readings :
  forall (D : Type) (drv : GyemsDRC D) (env : Env) (dev : D)
         (cfg : DeviceParams.t) (fuel : nat) (w0 w : World D)
         (left : result unit),
    Model_init dev cfg = (Ok tt, w0) ->
    control_loop env fuel w0 = (left, w) ->
    time (self w)
    = map (fun k => perf_counter env k - perf_counter env 0%nat)
          (seq 1 (List.length (time (self w)))) /\
    (monotone_clock env -> nondecreasing (time (self w))).
Proof.
  intros D drv env dev cfg fuel w0 w left Hinit Hrun.
  destruct (Model_init_ok dev cfg w0 Hinit) as (Hr & _ & _ & Ht & _).
  unfold control_loop, bind, clock in Hrun. rewrite Hr in Hrun.
  apply (while_loop_timestamps env _ _ _ _ _ _ 1%nat 0%nat) in Hrun;
    [|exact Ht | reflexivity].
  destruct Hrun as [n' En].
  assert (Hlen : List.length (time (self w)) = n')
    by (rewrite En, length_map, length_seq; reflexivity).
  rewrite Hlen. split; [exact En|].
  intros Hmono i j Hij. rewrite Hlen in Hij. rewrite En.
  rewrite !nth_map_seq by lia.
  pose proof (monotone_clock_le env (1 + i) (1 + j) Hmono ltac:(lia)).
  lra.
Qed.

Lemma steady_monotone : monotone_clock (quiet 3).
Proof.
  intros k. unfold quiet, steady_clock. cbn [perf_counter].
  rewrite Nat2Z.inj_succ, <- Z.add_1_r, inject_Z_plus.
  ring_simplify. lra.
Defined.

Lemma recorded_timestamps_are_clock_readings_witness :
  nondecreasing
    (time (self (snd (control_loop (quiet 3) 20
                        (snd (Model_init mock0 dev_param)))))).
Proof.
  apply (recorded_timestamps_are_clock_readings Mock Mock_GyemsDRC (quiet 3)
           mock0 dev_param 20 (snd (Model_init mock0 dev_param))
           (snd (control_loop (quiet 3) 20 (snd (Model_init mock0 dev_param))))
           (Ok tt)).
  - reflexivity.
  - vm_compute. reflexivity.
  - exact steady_monotone.
Defined.

(** X6. In a run whose loop is left through its check, the driver calls
    made by the loop are exactly the current commands of the recorded
    rows, one per row and in the order of the rows. *)
Theorem loop_commands_are_recorded :
  forall (D : Type) (drv : GyemsDRC D) (env : Env) (dev : D)
         (cfg : DeviceParams.t) (fuel : nat) (w0 w : World D),
    Model_init dev cfg = (Ok tt, w0) ->
    control_loop env fuel w0 = (Ok tt, w) ->
    calls w
    = calls w0 ++ map (fun r => CSetCurrent (row_u r)) (state (self w)).
Proof.
  intros D drv env dev cfg fuel w0 w Hinit Hrun.
  destruct (Model_init_ok dev cfg w0 Hinit) as (_ & Hs & _).
  unfold control_loop, bind, clock in Hrun.
  apply while_loop_commands in Hrun. destruct Hrun as (rows & Es & Ec).
  cbn in Es, Ec. rewrite Hs in Es. simpl in Es. rewrite Es. exact Ec.
Qed.

Lemma loop_commands_are_recorded_witness :
  calls (snd (control_loop (quiet 3) 20 (snd (Model_init mock0 dev_param))))
  = calls (snd (Model_init mock0 dev_param))
    ++ map (fun r => CSetCurrent (row_u r))
           (state (self (snd (control_loop (quiet 3) 20
                                (snd (Model_init mock0 dev_param)))))).
Proof.
  apply (loop_commands_are_recorded Mock Mock_GyemsDRC (quiet 3) mock0
           dev_param 20).
  - reflexivity.
  - vm_compute. reflexivity.
Defined.

(** X7. After every completed tick of a run, each recorded row obeys the
    control law with the error recorded at the same index:
    [u = kp * error + kd * (dq_def - dq)]. *)
Theorem recorded_rows_obey_pd_law :
  forall (D : Type) (drv : GyemsDRC D) (env : Env) (dev : D)
         (cfg : DeviceParams.t) (w0 w : World D),
    Model_init dev cfg = (Ok tt, w0) ->
    completed_ticks env w0 w ->
    pd_consistent (self w).
Proof.
  intros D drv env dev cfg w0 w Hinit Hticks.
  pose proof (init_aligned D drv dev cfg w0 Hinit) as Hal0.
  destruct (Model_init_ok dev cfg w0 Hinit) as (_ & Hs & _).
  assert (H0 : pd_consistent (self w0)).
  { intros i Hi. rewrite Hs in Hi. simpl in Hi. lia. }
  clear Hinit Hs.
  induction Hticks as [w | w w1 w2 t0 t Hpast IH Htick]; [exact H0|].
  specialize (IH Hal0 H0).
  pose proof (ticks_preserve_aligned D drv env w w1 Hpast Hal0)
    as (_ & L2 & _).
  destruct (tick_completed env t0 w1 t w2 Htick)
    as (Hkp & Hkd & Hiv & row & Es & Ee & _ & Hu).
  intros i Hi. rewrite Es, Ee, Hkp, Hkd, Hiv in *.
  rewrite length_app in Hi. simpl in Hi.
  destruct (Nat.lt_ge_cases i (List.length (state (self w1)))) as [Hlt|Hge].
  - rewrite !app_nth1 by lia. apply IH. exact Hlt.
  - assert (i = List.length (state (self w1))) as -> by lia.
    rewrite (app_nth2 (error (self w1))) by lia.
    rewrite !(app_nth2 (state (self w1))) by lia.
    rewrite L2, Nat.sub_diag. exact Hu.
Qed.

Lemma recorded_rows_obey_pd_law_witness :
  pd_consistent
    (self (snd (tick (quiet 3) 0 (snd (Model_init mock0 dev_param))))).
Proof.
  apply (recorded_rows_obey_pd_law Mock Mock_GyemsDRC (quiet 3) mock0
           dev_param (snd (Model_init mock0 dev_param))).
  - reflexivity.
  - eapply ticks_more with (t0 := 0).
    + apply ticks_none.
    + vm_compute. reflexivity.
Defined.

(** ** Outcomes of [simulate] *)

Lemma mock_cleanup_safe : cleanup_safe Mock.
Proof. split; intros d; eexists; reflexivity. Defined.

(** ** [simulate] with its call of [plot], and the script *)

Section PlotFacts.

Context {D : Type} `{GyemsDRC D}.
Variable env : Env.

Lemma shutdown_lists : forall (w : World D) r w1,
  shutdown w = (r, w1) ->
  r <> OutOfFuel /\
  state (self w1) = state (self w) /\ time (self w1) = time (self w) /\
  error (self w1) = error (self w).
Proof.
  intros w r w1. unfold shutdown, bind, device_call.
  destruct (set_current 0 (device (self w))); world_simpl.
  - destruct (disable _); world_simpl; intros E; injection E as <- <-;
      cbn; repeat split; try reflexivity; discriminate.
  - intros E. injection E as <- <-.
    cbn; repeat split; try reflexivity; discriminate.
Qed.

Lemma shutdown_returns : forall (w : World D),
  cleanup_safe D -> exists w1, shutdown w = (Ok tt, w1).
Proof.
  intros w [Hzero Hdis]. unfold shutdown, bind, device_call.
  destruct (Hzero (device (self w))) as [d1 ->]. world_simpl.
  destruct (Hdis d1) as [d2 ->]. eexists. reflexivity.
Qed.

End PlotFacts.

(** X11. When a run ends with no row recorded - no tick ran, or the
    first tick raised before [state.append] - and the two cleanup
    commands return, the complete [simulate] raises IndexError from
    [plot]: the exception that left the loop, if any, is replaced. *)
Theorem empty_recording_raises_index_error :
  forall (D : Type) (drv : GyemsDRC D) (env : Env) (fuel : nat)
         (w w' : World D) (r : result unit),
    cleanup_safe D ->
    simulate_plot env fuel w = Some (r, w') ->
    r <> OutOfFuel ->
    state (self w') = [] ->
    r = Raise IndexError.
Proof.
  intros D drv env fuel w w' r Hsafe.
  unfold simulate_plot, finally_block, clock.
  destruct (try_except _ _ _ _) as [rl wl].
  destruct (shutdown_returns wl Hsafe) as [ws Hs]. rewrite Hs.
  destruct (plot_report (time (self ws)) (state (self ws)))
    as [J B| ep | |] eqn:Hp.
  - destruct rl; intros E Hr Hst; injection E as <- <-;
      try congruence; rewrite Hst in Hp; discriminate.
  - destruct rl; intros E Hr Hst; injection E as <- <-;
      try congruence; rewrite Hst in Hp; simpl in Hp; congruence.
  - destruct rl; intros E Hr Hst; try discriminate.
    injection E as <- <-. congruence.
  - destruct rl; intros E Hr Hst; injection E as <- <-;
      try congruence; rewrite Hst in Hp; discriminate.
Qed.

Lemma empty_recording_raises_index_error_witness :
  fst (simulate (quiet 3) 20 (snd (Model_init mock0 hot_param)))
  = Raise DeviceError /\
  option_map fst (simulate_plot (quiet 3) 20 (snd (Model_init mock0 hot_param)))
  = Some (Raise IndexError).
Proof.
  split; [vm_compute; reflexivity|].
  destruct (simulate_plot (quiet 3) 20 (snd (Model_init mock0 hot_param)))
    as [[r w']|] eqn:E; [|vm_compute in E; discriminate].
  simpl. f_equal.
  apply (empty_recording_raises_index_error Mock Mock_GyemsDRC (quiet 3) 20
           (snd (Model_init mock0 hot_param)) w' r mock_cleanup_safe E).
  - vm_compute in E. injection E as <- _. discriminate.
  - vm_compute in E. injection E as _ <-. reflexivity.
Defined.

(** X9. The outcome of the complete [simulate] when the two cleanup
    commands return.  If [plot] raises, that exception is the outcome,
    whatever left the loop.  If [plot] returns, a KeyboardInterrupt that
    left the loop is not passed to the caller ([simulate] returns), any
    other exception that left the loop is raised again after the cleanup
    and the plot, and a loop left through its check makes [simulate]
    return.  In every case the recorded lists are as the loop left
    them. *)
Theorem simulate_swallows_interrupt_and_reraises_faults :
  forall (D : Type) (drv : GyemsDRC D) (env : Env) (fuel : nat)
         (w wl : World D) (left : result unit),
    cleanup_safe D ->
    control_loop env fuel w = (left, wl) ->
    left <> OutOfFuel ->
    (returns_pair (plot_report (time (self wl)) (state (self wl))) ->
     exists w',
       simulate_plot env fuel w
       = Some (match left with
               | Raise KeyboardInterrupt => Ok tt
               | _ => left
               end, w') /\
       state (self w') = state (self wl) /\
       error (self w') = error (self wl) /\
       time (self w') = time (self wl)) /\
    (forall e,
       plot_report (time (self wl)) (state (self wl)) = Raises e ->
       exists w',
         simulate_plot env fuel w = Some (Raise e, w') /\
         state (self w') = state (self wl) /\
         error (self w') = error (self wl) /\
         time (self w') = time (self wl)).
Proof.
  intros D drv env fuel w wl left Hsafe Hloop Hleft.
  unfold control_loop, bind, clock in Hloop.
  assert (Htry : exists wt,
            try_except (while_loop env fuel (perf_counter env (reads w)) 0)
              KeyboardInterrupt interrupt_handler
              (mkWorld (self w) (calls w) (S (reads w)))
            = (match left with
               | Raise KeyboardInterrupt => Ok tt
               | _ => left
               end, wt) /\
            state (self wt) = state (self wl) /\
            error (self wt) = error (self wl) /\
            time (self wt) = time (self wl)).
  { unfold try_except. rewrite Hloop.
    destruct left as [[]| e |]; [| |congruence].
    - exists wl. repeat split; reflexivity.
    - destruct e; cbn [exn_eqb];
        try (eexists; repeat split; reflexivity).
      unfold interrupt_handler, device_call.
      destruct Hsafe as [Hzero _].
      destruct (Hzero (device (self wl))) as [d1 ->].
      eexists. split; [reflexivity|]. cbn. repeat split; reflexivity. }
  destruct Htry as (wt & Htry & Ls & Le & Lt).
  destruct (shutdown_returns wt Hsafe) as [ws Hs].
  destruct (shutdown_lists wt _ ws Hs) as (_ & Ss & St & Se).
  assert (Hrep : plot_report (time (self ws)) (state (self ws))
                 = plot_report (time (self wl)) (state (self wl)))
    by (rewrite Ss, St, Ls, Lt; reflexivity).
  assert (Hne : match left with
                | Raise KeyboardInterrupt => Ok tt
                | _ => left
                end <> OutOfFuel).
  { destruct left as [u|[]|]; congruence. }
  split.
  - intros Hpair. exists ws.
    split; [|repeat split; congruence].
    unfold simulate_plot, clock, finally_block. rewrite Htry, Hs, Hrep.
    destruct (plot_report (time (self wl)) (state (self wl)));
      try contradiction;
      destruct left as [u|[]|]; try congruence; reflexivity.
  - intros e Hp. exists ws.
    split; [|repeat split; congruence].
    unfold simulate_plot, clock, finally_block. rewrite Htry, Hs, Hrep, Hp.
    destruct left as [u|[]|]; try congruence; reflexivity.
Qed.

Lemma simulate_swallows_interrupt_and_reraises_faults_witness :
  option_map fst
    (simulate_plot (quiet 3) 20 (snd (Model_init mock0 trip_param)))
  = Some (Raise DeviceError) /\
  option_map fst
    (simulate_plot (interrupted 3 2 AfterCommand) 20
       (snd (Model_init mock0 dev_param)))
  = Some (Ok tt).
Proof.
  split.
  - destruct (simulate_swallows_interrupt_and_reraises_faults Mock
                Mock_GyemsDRC (quiet 3) 20
                (snd (Model_init mock0 trip_param))
                (snd (control_loop (quiet 3) 20
                        (snd (Model_init mock0 trip_param))))
                (Raise DeviceError) mock_cleanup_safe)
      as [Hpair _].
    + vm_compute. reflexivity.
    + discriminate.
    + destruct Hpair as (w' & -> & _); [vm_compute; exact Logic.I|].
      reflexivity.
  - destruct (simulate_swallows_interrupt_and_reraises_faults Mock
                Mock_GyemsDRC (interrupted 3 2 AfterCommand) 20
                (snd (Model_init mock0 dev_param))
                (snd (control_loop (interrupted 3 2 AfterCommand) 20
                        (snd (Model_init mock0 dev_param))))
                (Raise KeyboardInterrupt) mock_cleanup_safe)
      as [Hpair _].
    + vm_compute. reflexivity.
    + discriminate.
    + destruct Hpair as (w' & -> & _); [vm_compute; exact Logic.I|].
      reflexivity.
Defined.

(** X12. When the constructor raises, the script ends there with the
    same exception: [simulate] is not run, so no current command is sent
    and the driver is not disabled, whatever setup calls were made. *)
Theorem main_stops_when_construction_fails :
  forall (D : Type) (drv : GyemsDRC D) (env : Env) (dev : D)
         (cfg : DeviceParams.t) (fuel : nat) (e : exn) (w : World D),
    Model_init dev cfg = (Raise e, w) ->
    main env dev cfg fuel = Some (Raise e, w) /\
    count is_command (calls w) = 0%nat /\
    count is_disable (calls w) = 0%nat /\
    state (self w) = [] /\ time (self w) = [].
Proof.
  intros D drv env dev cfg fuel e w Hinit. unfold main. rewrite Hinit.
  split; [reflexivity|].
  revert Hinit.
  unfold Model_init, setup, bind, modify, device_call. world_simpl.
  destruct (set_degrees dev) as [d1|e1]; world_simpl.
  - destruct (set_current_limit _ d1) as [d2|e2]; world_simpl.
    + destruct (enable d2) as [d3|e3]; world_simpl.
      * discriminate.
      * intros E. injection E as <- <-. cbn. repeat split; reflexivity.
    + intros E. injection E as <- <-. cbn. repeat split; reflexivity.
  - intros E. injection E as <- <-. cbn. repeat split; reflexivity.
Qed.

Lemma main_stops_when_construction_fails_witness :
  option_map fst (main (quiet 3) (mkBare 5) dev_param 20)
  = Some (Raise DeviceError) /\
  count is_disable (calls (snd (Model_init (mkBare 5) dev_param))) = 0%nat.
Proof.
  destruct (main_stops_when_construction_fails Bare Bare_GyemsDRC (quiet 3)
              (mkBare 5) dev_param 20 DeviceError
              (snd (Model_init (mkBare 5) dev_param)))
    as (Hm & _ & Hd & _).
  - reflexivity.
  - split; [rewrite Hm; reflexivity | exact Hd].
Defined.

(** * Further properties of the estimator *)

Lemma normal_unique : forall a b c p0 p1 q0 q1 r0 r1,
  ~ Np.gram_det a b c == 0 ->
  a * p0 + b * p1 == r0 -> b * p0 + c * p1 == r1 ->
  a * q0 + b * q1 == r0 -> b * q0 + c * q1 == r1 ->
  p0 == q0 /\ p1 == q1.
Proof.
  unfold Np.gram_det. intros a b c p0 p1 q0 q1 r0 r1 Hd P0 P1 Q0 Q1.
  assert (E0 : (a * c - b * b) * (p0 - q0) == 0).
  { setoid_replace ((a * c - b * b) * (p0 - q0))
      with (c * ((a * p0 + b * p1) - (a * q0 + b * q1))
            - b * ((b * p0 + c * p1) - (b * q0 + c * q1))) by ring.
    rewrite P0, P1, Q0, Q1. ring. }
  assert (E1 : (a * c - b * b) * (p1 - q1) == 0).
  { setoid_replace ((a * c - b * b) * (p1 - q1))
      with (a * ((b * p0 + c * p1) - (b * q0 + c * q1))
            - b * ((a * p0 + b * p1) - (a * q0 + b * q1))) by ring.
    rewrite P0, P1, Q0, Q1. ring. }
  apply Qmult_integral in E0. apply Qmult_integral in E1.
  destruct E0 as [E0|E0]; [contradiction|].
  destruct E1 as [E1|E1]; [contradiction|].
  split; lra.
Qed.

(** X13. Exact recovery.  When the aligned data fit [I = b * dq + j * ddq]
    with zero residual and both singular values of the two columns are
    above the cut-off of the pseudo-inverse, the estimator returns
    exactly [(b, j)]: the coefficient of the velocity first, the
    coefficient of the acceleration second. *)
Theorem get_params_recovers_exact_fit :
  forall (time : list Q) (state : list StateRow) (b j : Q),
    (2 <= List.length state)%nat ->
    List.length time = List.length state ->
    pairwise_distinct time ->
    sse (tl (map row_dq state)) (fd_column time (map row_dq state))
        (tl (map row_I state)) b j == 0 ->
    Np.both_kept
      (Np.dot (tl (map row_dq state)) (tl (map row_dq state)))
      (Np.dot (tl (map row_dq state)) (fd_column time (map row_dq state)))
      (Np.dot (fd_column time (map row_dq state))
              (fd_column time (map row_dq state))) = true ->
    exists p0 p1,
      get_params time state = Params p0 p1 /\ p0 == b /\ p1 == j.
Proof.
  intros time state b j Hn Hl Hd Hfit Hkept.
  assert (Hne : state <> []) by (destruct state; simpl in Hn; [lia|congruence]).
  rewrite (get_params_on_aligned time state Hne Hl Hd).
  set (x := tl (map row_dq state)) in *.
  set (y := fd_column time (map row_dq state)) in *.
  set (I := tl (map row_I state)) in *.
  assert (Hxy : List.length x = List.length y).
  { unfold x, y. rewrite tl_length, fd_column_length. reflexivity. }
  assert (HIx : List.length I = List.length x).
  { unfold I, x. rewrite !tl_length, !length_map. reflexivity. }
  assert (Hu : untruncated (Np.dot x x) (Np.dot x y) (Np.dot y y))
    by (right; left; exact Hkept).
  assert (HM : exists M,
            Np.pinv_coeffs (Np.dot x x) (Np.dot x y) (Np.dot y y) = Some M).
  { destruct (pinv_coeffs_untruncated _ _ _ Hu)
      as [[_ E]|[(_ & _ & E)|(_ & _ & E)]]; eauto. }
  destruct HM as [M HM].
  destruct (row_matmul_pinv x y I Hxy M HM) as (P & HP & E0 & E1).
  rewrite HP. eexists. eexists. split; [reflexivity|].
  destruct (pinv_coeffs_normal _ _ _ _ _ (gram_singular x y I Hxy)
              (gram_zero x y I) _ _ _ Hu HM E0 E1) as [N0 N1].
  assert (Hls : least_squares x y I b j).
  { intros q0 q1. rewrite Hfit. unfold sse. apply NpFacts.dot_self_nonneg. }
  destruct (least_squares_normal x y I Hxy HIx _ _ b j N0 N1 Hls)
    as [M0 M1].
  pose proof (both_kept_det _ _ _ Hkept) as Hdet.
  assert (Hdet' : ~ Np.gram_det (Np.dot x x) (Np.dot x y) (Np.dot y y) == 0)
    by lra.
  exact (normal_unique _ _ _ _ _ _ _ _ _ Hdet' N0 N1 M0 M1).
Qed.

Lemma get_params_recovers_exact_fit_witness :
  exists p0 p1,
    get_params [0; 1; 2] three_samples = Params p0 p1 /\
    p0 == 1 # 2 /\ p1 == 2.
Proof.
  apply (get_params_recovers_exact_fit [0; 1; 2] three_samples (1 # 2) 2).
  - simpl. lia.
  - reflexivity.
  - exact three_times_distinct.
  - vm_compute. reflexivity.
  - vm_compute. reflexivity.
Defined.

(** X15. Lists left misaligned by an interrupted tick: with one row more
    than timestamps, and at least three timestamps, the two difference
    arrays do not broadcast and the estimator raises ValueError. *)
Theorem get_params_misaligned :
  forall (time : list Q) (state : list StateRow),
    List.length state = S (List.length time) ->
    (3 <= List.length time)%nat ->
    get_params time state = Raises ValueError.
Proof.
  intros time state Hl Hn.
  unfold get_params. destruct state as [|r0 state]; [discriminate|].
  unfold Np.divide.
  pose proof (diff_length (map row_dq (r0 :: state))) as Ld.
  pose proof (diff_length time) as Lt.
  rewrite length_map, Hl in Ld.
  destruct (Np.diff (map row_dq (r0 :: state))) as [|a [|a' da]];
    simpl in Ld; try lia.
  destruct (Np.diff time) as [|c [|c' dt]]; simpl in Lt; try lia.
  cbn [List.length]. simpl in Ld, Lt.
  destruct (Nat.eqb_spec (S (S (List.length da))) (S (S (List.length dt))));
    [lia | reflexivity].
Qed.

Lemma get_params_misaligned_witness :
  get_params [0; 1; 2] (mkRow 0 0 0 0 :: three_samples) = Raises ValueError.
Proof.
  apply (get_params_misaligned [0; 1; 2] (mkRow 0 0 0 0 :: three_samples)).
  - reflexivity.
  - simpl. lia.
Defined.

Lemma nth_constant_velocity : forall (rows : list StateRow) v k,
  (forall r, In r rows -> row_dq r == v) ->
  (k < List.length rows)%nat ->
  nth k (map row_dq rows) 0 == v.
Proof.
  induction rows as [|r rows IH]; intros v k Hall Hk; simpl in Hk; [lia|].
  destruct k as [|k]; simpl.
  - apply Hall. now left.
  - apply IH; [|lia]. intros r' Hr'. apply Hall. now right.
Qed.

Lemma dot_zero_r : forall y,
  Forall (fun z => z == 0) y -> forall v, Np.dot v y == 0.
Proof.
  induction y as [|z y IH]; intros Hy v; destruct v as [|a v]; simpl;
    try reflexivity.
  inversion Hy as [|? ? Hz Hy']; subst. rewrite (IH Hy' v), Hz. ring.
Qed.

Lemma pinv_coeffs_offdiag : forall a b c,
  b == 0 -> c == 0 ->
  exists M, Np.pinv_coeffs a b c = Some M /\ fst (snd M) = 0.
Proof.
  intros a b c Hb Hc. unfold Np.pinv_coeffs.
  assert (Hd : Np.gram_det a b c == 0)
    by (unfold Np.gram_det; rewrite Hb, Hc; ring).
  destruct (Qeq_bool (a + c) 0); [eexists; split; reflexivity|].
  destruct (Np.both_kept a b c) eqn:Hk.
  - pose proof (both_kept_det a b c Hk). lra.
  - apply Qeq_bool_iff in Hd. rewrite Hd. eexists. split; reflexivity.
Qed.

(** X16. A recording with constant velocity (as with a rotor held still)
    is rank deficient: every acceleration is zero, and the estimator
    still returns a pair, whose second component - the coefficient of
    the acceleration - is zero. *)
Theorem get_params_constant_velocity :
  forall (time : list Q) (state : list StateRow) (v : Q),
    (2 <= List.length state)%nat ->
    List.length time = List.length state ->
    pairwise_distinct time ->
    (forall r, In r state -> row_dq r == v) ->
    Forall (fun z => z == 0) (fd_column time (map row_dq state)) /\
    exists p0 p1, get_params time state = Params p0 p1 /\ p1 == 0.
Proof.
  intros time state v Hn Hl Hd Hv.
  assert (Hne : state <> []) by (destruct state; simpl in Hn; [lia|congruence]).
  assert (Hy : Forall (fun z => z == 0) (fd_column time (map row_dq state))).
  { unfold fd_column. apply Forall_forall. intros z Hz.
    apply in_map_iff in Hz. destruct Hz as (i & <- & Hi).
    apply in_seq in Hi. rewrite length_map in Hi.
    unfold forward_difference.
    rewrite (nth_constant_velocity state v (S i) Hv) by lia.
    rewrite (nth_constant_velocity state v i Hv) by lia.
    unfold Qdiv. setoid_replace (v - v) with 0 by ring. ring. }
  split; [exact Hy|].
  rewrite (get_params_on_aligned time state Hne Hl Hd).
  set (x := tl (map row_dq state)) in *.
  set (y := fd_column time (map row_dq state)) in *.
  set (I := tl (map row_I state)) in *.
  assert (Hxy : List.length x = List.length y).
  { unfold x, y. rewrite tl_length, fd_column_length. reflexivity. }
  destruct (pinv_coeffs_offdiag (Np.dot x x) _ _
              (dot_zero_r y Hy x) (dot_zero_r y Hy y)) as (M & HM & Hm).
  destruct (row_matmul_pinv x y I Hxy M HM) as (P & HP & _ & E1).
  rewrite HP. eexists. eexists. split; [reflexivity|].
  rewrite E1, Hm, (dot_zero_r y Hy I). ring.
Qed.

Lemma get_params_constant_velocity_witness :
  exists p0 p1,
    get_params [0; 1; 2] [mkRow 0 4 1 0; mkRow 1 4 2 0; mkRow 2 4 3 0]
    = Params p0 p1 /\ p1 == 0.
Proof.
  destruct (get_params_constant_velocity [0; 1; 2]
              [mkRow 0 4 1 0; mkRow 1 4 2 0; mkRow 2 4 3 0] 4)
    as (_ & p0 & p1 & E & Hz).
  - simpl. lia.
  - reflexivity.
  - exact three_times_distinct.
  - intros r [<-|[<-|[<-|[]]]]; reflexivity.
  - exists p0, p1. split; [exact E | exact Hz].
Defined.

(** * The script from start to finish *)

Lemma strict_clock_lt : forall env i j,
  (forall k, perf_counter env k < perf_counter env (S k)) ->
  (i < j)%nat -> perf_counter env i < perf_counter env j.
Proof.
  intros env i j Hs Hij. induction Hij as [|j _ IH]; [apply Hs|].
  eapply Qlt_trans; [exact IH | apply Hs].
Qed.

Lemma clock_readings_distinct : forall env n,
  (forall k, perf_counter env k < perf_counter env (S k)) ->
  pairwise_distinct
    (map (fun k => perf_counter env k - perf_counter env 0%nat) (seq 1 n)).
Proof.
  intros env n Hs i j Hij. rewrite length_map, length_seq in Hij.
  rewrite !nth_map_seq by lia.
  pose proof (strict_clock_lt env (1 + i) (1 + j) Hs ltac:(lia)).
  lra.
Qed.

Section WholeRun.

Context {D : Type} `{GyemsDRC D}.
Variable env : Env.

Lemma shutdown_calls_ok : forall (w ws : World D),
  shutdown w = (Ok tt, ws) ->
  calls ws = calls w ++ [CSetCurrent 0; CDisable] /\
  self ws = with_device (device (self ws)) (self w).
Proof.
  intros w ws. unfold shutdown, bind, device_call.
  destruct (set_current 0 (device (self w))); world_simpl; [|discriminate].
  destruct (disable _); world_simpl; [|discriminate].
  intros E. injection E as <-. cbn. rewrite <- app_assoc.
  split; reflexivity.
Qed.

Lemma control_loop_completes : forall (dev : D) cfg (w0 : World D),
  healthy D ->
  uninterrupted env ->
  0 < DeviceParams.time_stop cfg ->
  Model_init dev cfg = (Ok tt, w0) ->
  clock_reaches env (DeviceParams.time_stop cfg) ->
  exists fuel w, control_loop env fuel w0 = (Ok tt, w).
Proof.
  intros dev cfg w0 Hh Hq Hpos Hinit [k0 Hk0].
  destruct (Model_init_ok dev cfg w0 Hinit)
    as (Hr & _ & _ & _ & _ & Hts & _).
  destruct (first_reach (perf_counter env) (DeviceParams.time_stop cfg)
              (S k0)) as [Hnone|(k & _ & Hreach & Hbelow)].
  { specialize (Hnone k0 (Nat.lt_succ_diag_r k0)). lra. }
  assert (Hk : (1 <= k)%nat).
  { destruct k; [|lia]. exfalso. lra. }
  destruct (while_loop_reaches env Hh Hq (perf_counter env 0%nat)
              (DeviceParams.time_stop cfg) k
              (fun i Hi => Hbelow i (proj2 Hi)) Hreach
              (k - 1)%nat 1%nat
              (mkWorld (self w0) (calls w0) (S (reads w0))) 0)
    as (w & Hrun & _ & _).
  { lia. }
  { lia. }
  { cbn. rewrite Hr. reflexivity. }
  { exact Hts. }
  { exact Hpos. }
  exists (S (S (k - 1))), w.
  unfold control_loop, bind, clock. rewrite Hr in Hrun |- *. exact Hrun.
Qed.

End WholeRun.

(** X17. With a driver none of whose calls raises, no interrupt, a
    strictly increasing clock that eventually gets [time_stop > 0] past
    its first reading, the script runs to its end without raising: it
    records at least one sample, the lists are aligned, [plot] prints a
    pair, and the driver calls are, in order, the three setup calls, one
    current command per recorded row, the zero current command and
    [disable]. *)
Theorem main_runs_to_completion :
  forall (D : Type) (drv : GyemsDRC D) (env : Env) (dev : D)
         (cfg : DeviceParams.t) (w0 : World D),
    healthy D ->
    (forall d, exists d', disable d = Done d') ->
    uninterrupted env ->
    (forall k, perf_counter env k < perf_counter env (S k)) ->
    0 < DeviceParams.time_stop cfg ->
    clock_reaches env (DeviceParams.time_stop cfg) ->
    Model_init dev cfg = (Ok tt, w0) ->
    exists fuel w,
      main env dev cfg fuel = Some (Ok tt, w) /\
      state (self w) <> [] /\
      aligned (self w) /\
      returns_pair (plot_report (time (self w)) (state (self w))) /\
      calls w
      = [CSetDegrees; CSetCurrentLimit (DeviceParams.current_limit cfg);
         CEnable]
        ++ map (fun r => CSetCurrent (row_u r)) (state (self w))
        ++ [CSetCurrent 0; CDisable].
Proof.
  intros D drv env dev cfg w0 Hh Hdis Hq Hstrict Hpos Hreach Hinit.
  destruct (control_loop_completes env dev cfg w0 Hh Hq Hpos Hinit Hreach)
    as (fuel & wl & Hloop).
  destruct (Model_init_ok dev cfg w0 Hinit)
    as (Hr & Hs0 & _ & Ht0 & _ & Hts & Hc0).
  pose proof (init_aligned D drv dev cfg w0 Hinit) as Hal0.
  (* what the loop leaves *)
  pose proof Hloop as Hrun. unfold control_loop, bind, clock in Hrun.
  pose proof (while_loop_commands env _ _ _ _ _ Hrun) as (rows & Es & Ec).
  cbn in Es, Ec. rewrite Hs0 in Es. simpl in Es. subst rows.
  pose proof (while_loop_completed env _ _ _ _ _ Hrun _
                (ticks_none env _)) as Hticks.
  pose proof (ticks_preserve_aligned D drv env _ wl Hticks Hal0) as Hal.
  pose proof (while_loop_time env fuel _ _
                (mkWorld (self w0) (calls w0) (S (reads w0))) _ _
                (or_introl Ht0) Hrun)
    as (_ & _ & sfx & Esfx & Hne).
  cbn in Esfx, Hne. rewrite Ht0 in Esfx. simpl in Esfx.
  assert (Htime : time (self wl) <> []).
  { rewrite Esfx. apply Hne; [reflexivity | rewrite Hts; exact Hpos]. }
  pose proof Hrun as Hstamps. rewrite Hr in Hstamps.
  apply (while_loop_timestamps env _ _ _ _ _ _ 1%nat 0%nat) in Hstamps;
    [|exact Ht0 | reflexivity].
  destruct Hstamps as [n' En].
  (* the finally block *)
  assert (Hsafe : cleanup_safe D).
  { split; [|exact Hdis]. intros d. destruct Hh as (_ & _ & _ & Hcmd).
    apply Hcmd. }
  destruct (shutdown_returns wl Hsafe) as [ws Hshut].
  destruct (shutdown_calls_ok wl ws Hshut) as [Ecs Eself].
  assert (Hlists : state (self ws) = state (self wl)
                   /\ error (self ws) = error (self wl)
                   /\ time (self ws) = time (self wl)
                   /\ q_def (self ws) = q_def (self wl)).
  { rewrite Eself. cbn. repeat split; reflexivity. }
  destruct Hlists as (Ls & Le & Lt & Lq).
  assert (Hal' : aligned (self ws)).
  { unfold aligned. rewrite Ls, Le, Lt, Lq. exact Hal. }
  assert (Hst : state (self ws) <> []).
  { rewrite Ls. destruct Hal as (L1 & L2 & _). intros E.
    apply Htime. apply length_zero_iff_nil. rewrite L1, L2, E. reflexivity. }
  assert (Hplot : returns_pair
                    (plot_report (time (self ws)) (state (self ws)))).
  { unfold plot_report. destruct Hal' as (L1 & L2 & _).
    destruct (state (self ws)) as [|r0 rest] eqn:Est; [congruence|].
    rewrite L1, L2, Nat.eqb_refl.
    rewrite get_params_on_aligned; [| discriminate | congruence |].
    - destruct (Np.pinv _ _); exact Logic.I.
    - rewrite Lt, En. apply clock_readings_distinct. exact Hstrict. }
  exists fuel, ws. split.
  - unfold main. rewrite Hinit.
    unfold simulate_plot, clock, try_except, finally_block.
    rewrite Hr in Hrun |- *. rewrite Hrun, Hshut.
    destruct (plot_report (time (self ws)) (state (self ws)));
      try contradiction; reflexivity.
  - split; [exact Hst|]. split; [exact Hal'|]. split; [exact Hplot|].
    rewrite Ecs, Ec, Hc0, Ls, <- app_assoc. reflexivity.
Qed.

Lemma steady_strict : forall k,
  perf_counter (quiet 3) k < perf_counter (quiet 3) (S k).
Proof.
  intros k. unfold quiet, steady_clock. cbn [perf_counter].
  rewrite Nat2Z.inj_succ, <- Z.add_1_r, inject_Z_plus.
  ring_simplify. lra.
Defined.

Lemma main_runs_to_completion_witness :
  exists fuel w,
    main (quiet 3) rotor0 dev_param fuel = Some (Ok tt, w) /\
    state (self w) <> [].
Proof.
  destruct (main_runs_to_completion Rotor Rotor_GyemsDRC (quiet 3) rotor0
              dev_param (snd (Model_init rotor0 dev_param)))
    as (fuel & w & Hm & Hs & _).
  - exact rotor_healthy.
  - intros d. eexists. reflexivity.
  - intro k. reflexivity.
  - exact steady_strict.
  - reflexivity.
  - exists 4%nat. vm_compute. discriminate.
  - reflexivity.
  - exists fuel, w. split; [exact Hm | exact Hs].
Defined.

(** * What [simulate] never does *)


Ltac run_cleanup :=
  repeat (world_simpl;
          match goal with
          | |- context [match set_current 0 ?d with _ => _ end] =>
              destruct (set_current 0 d) eqn:?
          | |- context [match disable ?d with _ => _ end] =>
              destruct (disable d) eqn:?
          end).

Section FrameFacts.

Context {D : Type} `{GyemsDRC D}.
Variable env : Env.

Lemma tick_parameters : forall t0 (w : World D) r w',
  tick env t0 w = (r, w') ->
  kp (self w') = kp (self w) /\ kd (self w') = kd (self w) /\
  initial_velocity (self w') = initial_velocity (self w) /\
  q_def (self w') = q_def (self w) /\
  time_stop (self w') = time_stop (self w).
Proof.
  intros t0 w r w' Ht. run_tick.
  all: cbn; repeat split; reflexivity.
Qed.

Lemma while_loop_parameters : forall fuel t0 t (w : World D) r w',
  while_loop env fuel t0 t w = (r, w') ->
  kp (self w') = kp (self w) /\ kd (self w') = kd (self w) /\
  initial_velocity (self w') = initial_velocity (self w) /\
  q_def (self w') = q_def (self w) /\
  time_stop (self w') = time_stop (self w).
Proof.
  induction fuel as [|fuel IH]; intros t0 t w r w' Hrun.
  - injection Hrun as <- <-. repeat split; reflexivity.
  - rewrite while_loop_step in Hrun.
    destruct (Qlt_bool t (time_stop (self w))).
    + destruct (tick env t0 w) as [rt wt] eqn:Ht.
      destruct (tick_parameters t0 w rt wt Ht) as (A & B & C & E & F).
      destruct rt as [t'| e |].
      * destruct (IH _ _ _ _ _ Hrun) as (A' & B' & C' & E' & F').
        repeat split; congruence.
      * injection Hrun as <- <-. repeat split; assumption.
      * injection Hrun as <- <-. repeat split; assumption.
    + injection Hrun as <- <-. repeat split; reflexivity.
Qed.

Lemma simulate_frame : forall fuel (w : World D) r w',
  simulate env fuel w = (r, w') ->
  (kp (self w') = kp (self w) /\ kd (self w') = kd (self w) /\
   initial_velocity (self w') = initial_velocity (self w) /\
   q_def (self w') = q_def (self w) /\
   time_stop (self w') = time_stop (self w)) /\
  exists added,
    calls w' = calls w ++ added /\
    forallb (fun c => is_command c || is_disable c) added = true /\
    (count is_disable added <= 1)%nat.
Proof.
  intros fuel w r w'.
  unfold simulate, interrupt_handler, shutdown, bind, clock,
    try_finally, try_except, device_call.
  destruct (while_loop env fuel _ 0 _) as [rl wl] eqn:Hloop.
  destruct (while_loop_parameters _ _ _ _ _ _ Hloop)
    as (A & B & C & E & F).
  destruct (while_loop_calls env _ _ _ _ _ _ Hloop) as (cmds & Ec & Fc).
  pose proof (commands_no_disable cmds Fc) as Hnone.
  assert (Fc' : forallb (fun c => is_command c || is_disable c) cmds = true).
  { clear - Fc. induction cmds as [|c cmds IH]; [reflexivity|].
    simpl in *. apply andb_true_iff in Fc as [-> Fc]. simpl. auto. }
  cbn in A, B, C, E, F, Ec.
  destruct rl as [[]| e |].
  2: destruct e; cbn [exn_eqb].
  all: run_cleanup.
  all: intros Eq; injection Eq as <- <-; cbn.
  all: split; [repeat split; assumption|].
  all: rewrite Ec, <- ?app_assoc; eexists; split; [reflexivity|].
  all: unfold count in *; rewrite ?forallb_app, ?filter_app, ?length_app,
         Fc', Hnone; split; [reflexivity | simpl; lia].
Qed.

End FrameFacts.

(** X18. [simulate] never changes the gains, the targets or [time_stop];
    the only driver calls it makes are current commands and [disable] -
    it never calls [set_degrees] or [enable] and never assigns
    [current_limit] - and it calls [disable] at most once. *)
Theorem simulate_keeps_parameters_and_setup :
  forall (D : Type) (drv : GyemsDRC D) (env : Env) (fuel : nat)
         (w w' : World D) (r : result unit),
    simulate env fuel w = (r, w') ->
    (kp (self w') = kp (self w) /\ kd (self w') = kd (self w) /\
     initial_velocity (self w') = initial_velocity (self w) /\
     q_def (self w') = q_def (self w) /\
     time_stop (self w') = time_stop (self w)) /\
    exists added,
      calls w' = calls w ++ added /\
      forallb (fun c => is_command c || is_disable c) added = true /\
      (count is_disable added <= 1)%nat.
Proof.
  intros D drv env fuel w w' r Hsim.
  exact (simulate_frame env fuel w r w' Hsim).
Qed.

Lemma simulate_keeps_parameters_and_setup_witness :
  kp (self (snd (simulate (interrupted 3 2 AfterCommand) 20
                   (snd (Model_init mock0 dev_param))))) = 3 /\
  time_stop (self (snd (simulate (interrupted 3 2 AfterCommand) 20
                          (snd (Model_init mock0 dev_param))))) = 10.
Proof.
  destruct (simulate_keeps_parameters_and_setup Mock Mock_GyemsDRC
              (interrupted 3 2 AfterCommand) 20
              (snd (Model_init mock0 dev_param))
              (snd (simulate (interrupted 3 2 AfterCommand) 20
                      (snd (Model_init mock0 dev_param))))
              (fst (simulate (interrupted 3 2 AfterCommand) 20
                      (snd (Model_init mock0 dev_param)))))
    as ((Hkp & _ & _ & _ & Hts) & _).
  - apply surjective_pairing.
  - split; [rewrite Hkp | rewrite Hts]; reflexivity.
Defined.
